(** * Skill Galaxy: graph builder, layout anchors and chain tracing

    Shallow embedding of [src/data/skilltree.ts], [src/data/algorithms.ts],
    [src/islands/galaxy/GalaxyInteraction.ts] and the galaxy view
    (the chain helpers and the layered layout of the D3 view module).

    JS numbers of the graph builder are exact rationals ([Q]); the layout
    coordinates, which go through [Math.cos] and [Math.sin], are reals ([R]):
    [Math.PI] is the double it is, [884279719003555 / 2^48], and [Math.cos]
    and [Math.sin] are the real cosine and sine at their (double) argument.
    Optional fields ([field?: T]) are [option T]; JS truthiness of a string
    ([!s], [s || d]) is written out. *)

From Stdlib Require Import QArith Qminmax Qround Qreals Reals Lra.
From Stdlib Require Lqa Machin Ratan.
From stdpp Require Import base gmap strings list sets.

Open Scope string_scope.
Open Scope Q_scope.

(* ================================================================= *)
(** ** Enumerations of [skilltree.ts] and the techtree types *)

(** [NodeType] of the course/project records. *)
Inductive NodeType :=
  | NT_course | NT_project | NT_thesis | NT_internship
  | NT_publication | NT_repo | NT_skill.

(** [GalaxyNode.nodeType : NodeType | 'dark' | 'core']. *)
Inductive GNodeType :=
  | GNT (t : NodeType)
  | GNT_dark
  | GNT_core.

Inductive StarClass := hypergiant | main_sequence | brown_dwarf | ghost.

Inductive MegastructureType := dyson | crystal | station | module_ | diamond.

Inductive NodeLayer := L_core | L_inner | L_mid | L_outer | L_stargate.

#[global] Instance NodeType_eq_dec : EqDecision NodeType.
Proof. solve_decision. Defined.
#[global] Instance GNodeType_eq_dec : EqDecision GNodeType.
Proof. solve_decision. Defined.
#[global] Instance StarClass_eq_dec : EqDecision StarClass.
Proof. solve_decision. Defined.
#[global] Instance NodeLayer_eq_dec : EqDecision NodeLayer.
Proof. solve_decision. Defined.

(** [a || b] for an optional string [a] and a string [b]. *)
Definition or_str (a : option string) (b : string) : string :=
  match a with
  | Some v => if bool_decide (v = "") then b else v
  | None => b
  end.

(** The members every JS object inherits from [Object.prototype]; reading
    one of them off an object literal used as a table ([GRADE_XP],
    [courseClusterOverrides]) gives a function (or, for [__proto__], an
    object), never [undefined]. *)
Definition objectPrototypeKeys : list string :=
  ["constructor"; "__defineGetter__"; "__defineSetter__"; "hasOwnProperty";
   "__lookupGetter__"; "__lookupSetter__"; "isPrototypeOf"; "propertyIsEnumerable";
   "toString"; "valueOf"; "__proto__"; "toLocaleString"].

(** The value a node carries as [clusterId]: a string, or the inherited
    [Object.prototype] member named [key] (a function, or [Object.prototype]
    itself for [__proto__]); such a member is truthy and [===] to no string. *)
Inductive ClusterIdVal :=
  | cid_str (s : string)
  | cid_proto (key : string).

#[global] Instance ClusterIdVal_eq_dec : EqDecision ClusterIdVal.
Proof. solve_decision. Defined.

(* ================================================================= *)
(** ** Grade -> mastery and grade -> star class *)

(** [gradeToMastery(grade?: string)]: [if (!grade) return 0.5], then a
    [switch] (strict equality on the string) with default [0.4]. *)
Definition gradeToMastery (grade : option string) : Q :=
  match grade with
  | None => 1#2
  | Some g =>
    if bool_decide (g = "") then 1#2
    else if bool_decide (g = "A+") then 1
    else if bool_decide (g = "A") then 85#100
    else if bool_decide (g = "A-") then 70#100
    else if bool_decide (g = "B+") then 55#100
    else if bool_decide (g = "B") then 45#100
    else if bool_decide (g = "P") then 1#2
    else 40#100
  end.

(** [gradeToStarClass(grade, nodeType)]. *)
Definition gradeToStarClass (grade : option string) (nt : GNodeType) : StarClass :=
  match nt with
  | GNT_dark => ghost
  | GNT NT_thesis | GNT NT_publication => hypergiant
  | _ =>
    match grade with
    | None => main_sequence
    | Some g =>
      if bool_decide (g = "") then main_sequence
      else if bool_decide (g = "A+") then hypergiant
      else if bool_decide (g = "A") then main_sequence
      else if bool_decide (g = "A-") then main_sequence
      else if bool_decide (g = "B+") then brown_dwarf
      else if bool_decide (g = "P") then brown_dwarf
      else brown_dwarf
    end
  end.

Example gradeToMastery_A : gradeToMastery (Some "A") = 85#100.
Proof. reflexivity. Qed.
Example gradeToMastery_none : gradeToMastery None = 1#2.
Proof. reflexivity. Qed.

(** [nodeTypeToMegastructure]; [null] is [None]. *)
Definition nodeTypeToMegastructure (nt : GNodeType) : option MegastructureType :=
  match nt with
  | GNT NT_thesis => Some dyson
  | GNT NT_publication => Some crystal
  | GNT NT_internship => Some station
  | GNT NT_repo => Some module_
  | GNT NT_project => Some diamond
  | GNT NT_skill => Some module_
  | _ => None
  end.

(** [STAR_GATE_IDS]. *)
Definition STAR_GATE_IDS : gset string :=
  {[ "thesis-phd"; "pub-specvit-apj"; "proj-blade"; "pub-charm"; "intern-bytedance" ]}.

(** [assignLayer(nodeType, id)]. *)
Definition assignLayer (nt : GNodeType) (id : string) : NodeLayer :=
  match nt with
  | GNT_core => L_core
  | GNT_dark => L_outer
  | GNT t =>
    if bool_decide (id ∈ STAR_GATE_IDS) then L_stargate else
    match t with
    | NT_skill => L_mid
    | NT_course => L_inner
    | NT_thesis | NT_publication | NT_internship => L_outer
    | _ => L_mid
    end
  end.

(** [nodeTypeRadius(nodeType, mastery)]. *)
Definition nodeTypeRadius (nt : GNodeType) (mastery : Q) : Q :=
  match nt with
  | GNT_core => 24
  | GNT NT_thesis => 14
  | GNT NT_publication => 10
  | GNT NT_internship => 11
  | GNT NT_repo => 7
  | GNT NT_project => 12
  | GNT NT_skill => 4 + mastery * 6
  | GNT_dark => 5
  | GNT NT_course => 6 + mastery * 8
  end.

(* ================================================================= *)
(** ** Records *)

(** [CourseNode] (display-only fields [code], [institution], [year],
    [semester] are copied verbatim by the builder and omitted here). *)
Record CourseNode := {
  c_id : string;
  c_name : string;
  c_track : string;
  c_grade : string;
  c_prerequisites : option (list string);
  c_relatedProjects : option (list string);
  c_nodeType : option NodeType;
}.

(** [ProjectNode] (display-only [year], [semester], [url], [venue] omitted). *)
Record ProjectNode := {
  p_id : string;
  p_name : string;
  p_relatedCourses : list string;
  p_track : option string;
  p_nodeType : option NodeType;
}.

(** [GalaxyNode]; the coordinates [x], [y] are assigned by the layout
    (section [Layout] below) and are kept apart from the record. *)
Record GalaxyNode := {
  n_id : string;
  n_name : string;
  n_track : option string;
  n_grade : option string;
  n_nodeType : GNodeType;
  n_clusterId : ClusterIdVal;
  n_mastery : Q;
  n_brightness : Q;
  n_radius : Q;
  n_starClass : StarClass;
  n_megastructure : option MegastructureType;
  n_layer : NodeLayer;
  n_isStarGate : option bool;
  n_prerequisites : option (list string);
  n_relatedProjects : option (list string);
  n_relatedCourses : option (list string);
  n_isDark : option bool;
}.

Inductive EdgeType := prerequisite | related.

(** [ConstellationEdge]. *)
Record ConstellationEdge := {
  e_source : string;
  e_target : string;
  e_type : EdgeType;
}.

Record DarkStar := {
  ds_id : string;
  ds_name : string;
  ds_clusterId : string;
}.

(** [SkillCluster] (colours and label omitted). *)
Record SkillCluster := {
  cl_id : string;
  cl_angle : R;
  cl_radius : R;
  cl_trackIds : list string;
  cl_darkStars : list DarkStar;
}.

(* ================================================================= *)
(** ** Cluster definitions *)

(** [Math.PI]: the double nearest to pi, which is below pi. *)
Definition MathPI : R := (IZR 884279719003555 / IZR 281474976710656)%R.

(** [const TAU = Math.PI * 2] (doubling a double is exact). *)
Definition TAU : R := (2 * MathPI)%R.

Definition mkDS (cid id name : string) : DarkStar :=
  {| ds_id := id; ds_name := name; ds_clusterId := cid |}.

(** [clusters]. *)
Definition clusters : list SkillCluster := [
  {| cl_id := "physics"; cl_angle := (- TAU / 14)%R; cl_radius := 300%R;
     cl_trackIds := ["physics"];
     cl_darkStars := [mkDS "physics" "dark-condensed-matter" "Condensed Matter";
                      mkDS "physics" "dark-nuclear" "Nuclear Physics";
                      mkDS "physics" "dark-astro" "Astrophysics";
                      mkDS "physics" "dark-plasma" "Plasma Physics"] |};
  {| cl_id := "math"; cl_angle := (TAU / 14)%R; cl_radius := 300%R;
     cl_trackIds := ["math"];
     cl_darkStars := [mkDS "math" "dark-algebra" "Abstract Algebra";
                      mkDS "math" "dark-analysis" "Real Analysis";
                      mkDS "math" "dark-number-theory" "Number Theory";
                      mkDS "math" "dark-diff-eq" "Differential Equations"] |};
  {| cl_id := "cs"; cl_angle := (3 * TAU / 14)%R; cl_radius := 300%R;
     cl_trackIds := ["algorithms"]; cl_darkStars := [] |};
  {| cl_id := "aiml"; cl_angle := (5 * TAU / 14)%R; cl_radius := 300%R;
     cl_trackIds := ["ai"; "ml"];
     cl_darkStars := [mkDS "aiml" "dark-rl" "Reinforcement Learning";
                      mkDS "aiml" "dark-genai" "Generative AI";
                      mkDS "aiml" "dark-robotics" "Robotics";
                      mkDS "aiml" "dark-cv" "Computer Vision"] |};
  {| cl_id := "engineering"; cl_angle := (7 * TAU / 14)%R; cl_radius := 300%R;
     cl_trackIds := ["systems"];
     cl_darkStars := [mkDS "engineering" "dark-swe" "Software Engineering";
                      mkDS "engineering" "dark-webdev" "Web Development";
                      mkDS "engineering" "dark-devops" "DevOps";
                      mkDS "engineering" "dark-cloud" "Cloud Computing";
                      mkDS "engineering" "dark-data-eng" "Data Engineering"] |};
  {| cl_id := "data"; cl_angle := (9 * TAU / 14)%R; cl_radius := 300%R;
     cl_trackIds := [];
     cl_darkStars := [mkDS "data" "dark-viz" "Visualization";
                      mkDS "data" "dark-statmodel" "Statistical Modeling";
                      mkDS "data" "dark-scicomp" "Scientific Computing"] |};
  {| cl_id := "business"; cl_angle := (11 * TAU / 14)%R; cl_radius := 300%R;
     cl_trackIds := ["business"; "social"];
     cl_darkStars := [mkDS "business" "dark-strategy" "Strategy";
                      mkDS "business" "dark-economics" "Economics";
                      mkDS "business" "dark-finance" "Finance";
                      mkDS "business" "dark-communication" "Communication";
                      mkDS "business" "dark-design" "Design Thinking"] |}
].

(** [trackToCluster]: [for c of clusters, for tid of c.trackIds: set(tid, c.id)];
    a later [set] overwrites an earlier one, as for a JS [Map]. *)
Definition trackToCluster : gmap string string :=
  fold_left (fun m c => fold_left (fun m tid => <[tid := cl_id c]> m) (cl_trackIds c) m)
    clusters ∅.

(** The own keys of the object literal [courseClusterOverrides]. *)
Definition courseClusterOverrides : gmap string string :=
  {[ "EN553636" := "data" ]}.

(** [courseClusterOverrides[k]]: an own key gives its string, an
    [Object.prototype] member name the inherited member, any other key
    [undefined]. *)
Definition courseClusterOverride (k : string) : option ClusterIdVal :=
  match courseClusterOverrides !! k with
  | Some v => Some (cid_str v)
  | None => if bool_decide (k ∈ objectPrototypeKeys) then Some (cid_proto k) else None
  end.

Example trackToCluster_ml : trackToCluster !! "ml" = Some "aiml".
Proof. vm_compute. reflexivity. Qed.

(* ================================================================= *)
(** ** Algorithm topics ([algorithms.ts]) *)

(** [AlgoTopicDef] ([name] and [sector] are display data). *)
Record AlgoTopicDef := {
  t_id : string;
  t_tagSlugs : list string;
  t_estimatedTotal : Q;
  t_layer : NodeLayer;
  t_prerequisites : list string;
}.

Definition mkTopic (id : string) (slugs : list string) (total : Z) (l : NodeLayer)
    (pre : list string) : AlgoTopicDef :=
  {| t_id := id; t_tagSlugs := slugs; t_estimatedTotal := inject_Z total;
     t_layer := l; t_prerequisites := pre |}.

(** [ALGO_TOPICS]. *)
Definition ALGO_TOPICS : list AlgoTopicDef := [
  mkTopic "algo-array-hash" ["array"; "hash-table"] 300 L_inner [];
  mkTopic "algo-string" ["string"] 200 L_inner ["algo-array-hash"];
  mkTopic "algo-sorting" ["sorting"] 120 L_inner ["algo-array-hash"];
  mkTopic "algo-linked-list" ["linked-list"] 80 L_inner ["algo-array-hash"];
  mkTopic "algo-stack-queue" ["stack"; "queue"; "monotonic-stack"] 120 L_inner ["algo-array-hash"];
  mkTopic "algo-two-pointers" ["two-pointers"] 80 L_inner ["algo-array-hash"];
  mkTopic "algo-sliding-window" ["sliding-window"] 50 L_inner ["algo-two-pointers"];
  mkTopic "algo-binary-search" ["binary-search"] 100 L_inner ["algo-sorting"];
  mkTopic "algo-trees" ["tree"; "binary-tree"; "binary-search-tree"] 150 L_mid ["algo-stack-queue"];
  mkTopic "algo-heap" ["heap-priority-queue"] 60 L_mid ["algo-trees"];
  mkTopic "algo-divide-conquer" ["divide-and-conquer"] 40 L_mid ["algo-binary-search"];
  mkTopic "algo-graphs" ["graph"; "breadth-first-search"; "depth-first-search"] 150 L_mid ["algo-trees"];
  mkTopic "algo-trie" ["trie"] 30 L_mid ["algo-trees"];
  mkTopic "algo-union-find" ["union-find"] 40 L_mid ["algo-graphs"];
  mkTopic "algo-dp" ["dynamic-programming"] 250 L_outer ["algo-divide-conquer"];
  mkTopic "algo-greedy" ["greedy"] 120 L_outer ["algo-sorting"];
  mkTopic "algo-backtracking" ["backtracking"] 60 L_outer ["algo-trees"];
  mkTopic "algo-design" ["design"] 50 L_outer ["algo-stack-queue"; "algo-trees"];
  mkTopic "algo-math" ["math"; "geometry"] 150 L_outer [];
  mkTopic "algo-bit" ["bit-manipulation"] 60 L_outer []
].

(** [tagStatsMap = new Map(tagStats.map(t => [t.tagSlug, t.problemsSolved]))];
    the LeetCode stats file is an input: a list of (tagSlug, problemsSolved). *)
Definition tagStatsMap (tagStats : list (string * Q)) : gmap string Q :=
  fold_left (fun m t => <[t.1 := t.2]> m) tagStats ∅.

(** [n || 0] for a number that may be [undefined] (a [0] gives [0] either way). *)
Definition or_zero (n : option Q) : Q :=
  match n with Some v => v | None => 0 end.

(** [computeSolvedCount(tagSlugs)]. *)
Definition computeSolvedCount (stats : gmap string Q) (tagSlugs : list string) : Q :=
  fold_left (fun total slug => total + or_zero (stats !! slug)) tagSlugs 0.

(** [a < b] on numbers. *)
Definition Qltb (a b : Q) : bool := negb (Qle_bool b a).

(** [masteryToStarClass(mastery)]. *)
Definition masteryToStarClass (mastery : Q) : StarClass :=
  if Qltb mastery (5#100) then ghost
  else if Qltb mastery (3#10) then brown_dwarf
  else if Qltb mastery (7#10) then main_sequence
  else hypergiant.

(** The node built for one topic in the loop of [buildAlgorithmNodes]
    (the detail-panel side table [algoNodeExtras] is not modelled). *)
Definition algoTopicNode (stats : gmap string Q) (topic : AlgoTopicDef) : GalaxyNode :=
  let solvedCount := computeSolvedCount stats (t_tagSlugs topic) in
  let mastery := Qmin 1 (solvedCount / t_estimatedTotal topic) in
  let starClass := masteryToStarClass mastery in
  let isDark := bool_decide (starClass = ghost) in
  let radius := Qmax 4 (Qmin 16 (4 + solvedCount * (8#100))) in
  {| n_id := t_id topic; n_name := t_id topic;
     n_track := Some "algorithms"; n_grade := None;
     n_nodeType := if isDark then GNT_dark else GNT NT_course;
     n_clusterId := cid_str "cs";
     n_mastery := mastery;
     n_brightness := if isDark then 15#100 else (4#10) + mastery * (6#10);
     n_radius := radius;
     n_starClass := starClass;
     n_megastructure := None;
     n_layer := t_layer topic;
     n_isStarGate := None;
     n_prerequisites := match t_prerequisites topic with [] => None | l => Some l end;
     n_relatedProjects := None;
     n_relatedCourses := None;
     n_isDark := Some isDark |}.

(** Prerequisite edges of one topic. *)
Definition algoTopicEdges (topic : AlgoTopicDef) : list ConstellationEdge :=
  map (fun preId => {| e_source := preId; e_target := t_id topic; e_type := prerequisite |})
    (t_prerequisites topic).

(** [buildAlgorithmNodes()]: one node and its prerequisite edges per topic,
    in the order of [ALGO_TOPICS]. *)
Definition buildAlgorithmNodes (tagStats : list (string * Q))
    : list GalaxyNode * list ConstellationEdge :=
  let stats := tagStatsMap tagStats in
  (map (algoTopicNode stats) ALGO_TOPICS, concat (map algoTopicEdges ALGO_TOPICS)).

(* ================================================================= *)
(** ** Skill nodes ([buildSkillNodes], from the skills registry file) *)

Record SkillRegistryEntry := {
  sk_id : string;
  sk_name : string;
  sk_maturity_score : Q;
  sk_maturity_level : string;
}.

Definition skillMaturityToStarClass (level : string) : StarClass :=
  match level with
  | "mature" => hypergiant
  | "growing" => main_sequence
  | _ => brown_dwarf
  end.

(** [buildSkillNodes()], the registry contents given as a list. *)
Definition buildSkillNodes (skills : list SkillRegistryEntry) : list GalaxyNode :=
  map (fun s =>
    {| n_id := "skill-" ++ sk_id s; n_name := sk_name s;
       n_track := None; n_grade := None;
       n_nodeType := GNT NT_skill; n_clusterId := cid_str "engineering";
       n_mastery := sk_maturity_score s / 100;
       n_brightness := (3#10) + (sk_maturity_score s / 100) * (7#10);
       n_radius := 4 + (sk_maturity_score s / 100) * 6;
       n_starClass := skillMaturityToStarClass (sk_maturity_level s);
       n_megastructure := Some module_; n_layer := L_mid;
       n_isStarGate := None; n_prerequisites := None;
       n_relatedProjects := None; n_relatedCourses := None; n_isDark := None |})
    skills.

(* ================================================================= *)
(** ** [buildGalaxyNodes] *)

(** The [CORE] node pushed first. *)
Definition coreGalaxyNode : GalaxyNode :=
  {| n_id := "CORE"; n_name := "CORE"; n_track := None; n_grade := None;
     n_nodeType := GNT_core; n_clusterId := cid_str "core";
     n_mastery := 1; n_brightness := 1; n_radius := 24;
     n_starClass := hypergiant; n_megastructure := None; n_layer := L_core;
     n_isStarGate := None; n_prerequisites := None; n_relatedProjects := None;
     n_relatedCourses := None; n_isDark := None |}.

(** [a || b] for a [clusterId] value [a] that may be [undefined]: only the
    empty string is falsy. *)
Definition or_cid (a : option ClusterIdVal) (b : ClusterIdVal) : ClusterIdVal :=
  match a with
  | Some (cid_str v) => if bool_decide (v = "") then b else cid_str v
  | Some (cid_proto k) => cid_proto k
  | None => b
  end.

(** [courseClusterOverrides[c.id] || trackToCluster.get(c.track) || 'cs']
    ([trackToCluster] is a [Map]: no inherited entries). *)
Definition courseClusterId (c : CourseNode) : ClusterIdVal :=
  or_cid (courseClusterOverride (c_id c))
    (cid_str (or_str (trackToCluster !! c_track c) "cs")).

(** The node pushed for a course record. *)
Definition courseGalaxyNode (c : CourseNode) : GalaxyNode :=
  let clusterId := courseClusterId c in
  let mastery := gradeToMastery (Some (c_grade c)) in
  let nt := GNT (default NT_course (c_nodeType c)) in
  {| n_id := c_id c; n_name := c_name c;
     n_track := Some (c_track c); n_grade := Some (c_grade c);
     n_nodeType := nt; n_clusterId := clusterId;
     n_mastery := mastery;
     n_brightness := (4#10) + mastery * (6#10);
     n_radius := nodeTypeRadius nt mastery;
     n_starClass := gradeToStarClass (Some (c_grade c)) nt;
     n_megastructure := nodeTypeToMegastructure nt;
     n_layer := assignLayer nt (c_id c);
     n_isStarGate := None;
     n_prerequisites := c_prerequisites c;
     n_relatedProjects := c_relatedProjects c;
     n_relatedCourses := None;
     n_isDark := None |}.

(** The node pushed for a project record. *)
Definition projectGalaxyNode (p : ProjectNode) : GalaxyNode :=
  let track := or_str (p_track p) "ml" in
  let clusterId := or_str (trackToCluster !! track) "aiml" in
  let t := default NT_project (p_nodeType p) in
  let nt := GNT t in
  let mastery : Q :=
    match t with
    | NT_thesis => 95#100
    | NT_publication => 9#10
    | NT_internship => 85#100
    | _ => 75#100
    end in
  let isSG := bool_decide (p_id p ∈ STAR_GATE_IDS) in
  {| n_id := p_id p; n_name := p_name p;
     n_track := Some track; n_grade := None;
     n_nodeType := nt; n_clusterId := cid_str clusterId;
     n_mastery := mastery;
     n_brightness := (1#2) + mastery * (1#2);
     n_radius := if isSG then 18 else nodeTypeRadius nt mastery;
     n_starClass := if isSG then hypergiant else gradeToStarClass None nt;
     n_megastructure := nodeTypeToMegastructure nt;
     n_layer := assignLayer nt (p_id p);
     n_isStarGate := if isSG then Some true else None;
     n_prerequisites := None;
     n_relatedProjects := None;
     n_relatedCourses := Some (p_relatedCourses p);
     n_isDark := None |}.

(** The placeholder node pushed for a dark star of a cluster. *)
Definition darkGalaxyNode (cluster : SkillCluster) (ds : DarkStar) : GalaxyNode :=
  {| n_id := ds_id ds; n_name := ds_name ds; n_track := None; n_grade := None;
     n_nodeType := GNT_dark; n_clusterId := cid_str (cl_id cluster);
     n_mastery := 0; n_brightness := 15#100; n_radius := 5;
     n_starClass := ghost; n_megastructure := None; n_layer := L_outer;
     n_isStarGate := None; n_prerequisites := None; n_relatedProjects := None;
     n_relatedCourses := None; n_isDark := Some true |}.

(** [buildGalaxyNodes(courses, projectNodes, _clusters, algorithmNodes?)];
    the skill registry read by [buildSkillNodes] is passed as [skills]. *)
Definition buildGalaxyNodes (courses : list CourseNode) (projectNodes : list ProjectNode)
    (_clusters : list SkillCluster) (algorithmNodes : option (list GalaxyNode))
    (skills : list SkillRegistryEntry) : list GalaxyNode :=
  [coreGalaxyNode]
  ++ map courseGalaxyNode courses
  ++ map projectGalaxyNode projectNodes
  ++ concat (map (fun cl => map (darkGalaxyNode cl) (cl_darkStars cl)) _clusters)
  ++ default [] algorithmNodes
  ++ buildSkillNodes skills.

(* ================================================================= *)
(** ** [buildEdges] *)

Definition buildEdges (courses : list CourseNode) (projectNodes : list ProjectNode)
    (algorithmEdges : option (list ConstellationEdge)) : list ConstellationEdge :=
  concat (map (fun c =>
      match c_prerequisites c with
      | Some pres => map (fun pre => {| e_source := pre; e_target := c_id c;
                                        e_type := prerequisite |}) pres
      | None => []
      end) courses)
  ++ concat (map (fun p =>
      map (fun cid => {| e_source := cid; e_target := p_id p; e_type := related |})
        (p_relatedCourses p)) projectNodes)
  ++ default [] algorithmEdges.

(** [nodeMap = new Map(galaxyNodes.map(n => [n.id, n]))]: a later node with
    the same id replaces an earlier one. *)
Definition mkNodeMap (galaxyNodes : list GalaxyNode) : gmap string GalaxyNode :=
  fold_left (fun m n => <[n_id n := n]> m) galaxyNodes ∅.

(** [validEdges = edges.filter(e => nodeMap.has(e.source) && nodeMap.has(e.target))]
    in the galaxy view. *)
Definition validEdges (nodeMap : gmap string GalaxyNode) (edges : list ConstellationEdge)
    : list ConstellationEdge :=
  filter (fun e => is_Some (nodeMap !! e_source e) /\ is_Some (nodeMap !! e_target e)) edges.

(** The data the galaxy view builds before anything else:
    [buildAlgorithmNodes()], then [buildGalaxyNodes(courses, projectNodes,
    clusters, algoNodes)], [buildEdges(courses, projectNodes, algoEdges)] and
    [nodeMap]. *)
Definition galaxyNodes (courses : list CourseNode) (projectNodes : list ProjectNode)
    (tagStats : list (string * Q)) (skills : list SkillRegistryEntry) : list GalaxyNode :=
  buildGalaxyNodes courses projectNodes clusters
    (Some (buildAlgorithmNodes tagStats).1) skills.

Definition galaxyEdges (courses : list CourseNode) (projectNodes : list ProjectNode)
    (tagStats : list (string * Q)) : list ConstellationEdge :=
  buildEdges courses projectNodes (Some (buildAlgorithmNodes tagStats).2).

Definition algoEdges (tagStats : list (string * Q)) : list ConstellationEdge :=
  (buildAlgorithmNodes tagStats).2.

(* ================================================================= *)
(** ** Chain tracing: depth-first search with a visited set *)

(** [for (const y of ys) f(y, visited)], where [f] mutates [visited]:
    the set is threaded through the calls. [None] only propagates an
    exhausted recursion budget (see [dfs]). *)
Fixpoint forM (step : gset string -> string -> option (gset string))
    (ys : list string) (v : gset string) : option (gset string) :=
  match ys with
  | [] => Some v
  | y :: ys' =>
    match step v y with
    | Some v' => forM step ys' v'
    | None => None
    end
  end.

(** The shape shared by [collectPrereqChain] and [collectDownstreamChain]:
    [if (visited.has(id)) return; visited.add(id); for (y of next(id)) rec(y, visited)].
    [fuel] bounds the recursion depth so that the function is total in Rocq;
    [None] means the bound was hit. *)
Fixpoint dfs (next : string -> list string) (fuel : nat) (visited : gset string)
    (x : string) : option (gset string) :=
  match fuel with
  | O => None
  | S f =>
    if decide (x ∈ visited) then Some visited
    else forM (dfs next f) (next x) ({[x]} ∪ visited)
  end.

(** [y] is reachable from [x] following [next]. *)
Inductive reach (next : string -> list string) : string -> string -> Prop :=
  | reach_refl x : reach next x x
  | reach_step x y z : y ∈ next x -> reach next y z -> reach next x z.

(** Successors of [collectPrereqChain]: [node.prerequisites] then
    [node.relatedCourses] of the node in [nodeMap]; none when the id has no
    node ([if (!node) return]). *)
Definition next_up (nodeMap : gmap string GalaxyNode) (nodeId : string) : list string :=
  match nodeMap !! nodeId with
  | Some node => default [] (n_prerequisites node) ++ default [] (n_relatedCourses node)
  | None => []
  end.

(** Successors of [collectDownstreamChain] in [GalaxyInteraction.ts]:
    courses whose [prerequisites] include the id, then projects whose
    [relatedCourses] include it. *)
Definition next_down_module (courses : list CourseNode) (projectNodes : list ProjectNode)
    (nodeId : string) : list string :=
  map c_id (filter (fun c => nodeId ∈ default [] (c_prerequisites c)) courses)
  ++ map p_id (filter (fun p => nodeId ∈ p_relatedCourses p) projectNodes).

(** Successors of [collectDownstreamChain] in the galaxy view: the same two
    scans, then the algorithm prerequisite edges leaving the id. *)
Definition next_down_view (courses : list CourseNode) (projectNodes : list ProjectNode)
    (algoEdges : list ConstellationEdge) (nodeId : string) : list string :=
  map c_id (filter (fun c => nodeId ∈ default [] (c_prerequisites c)) courses)
  ++ map p_id (filter (fun p => nodeId ∈ p_relatedCourses p) projectNodes)
  ++ map e_target (filter (fun e => e_source e = nodeId) algoEdges).

(** Every id a traversal can visit: the start, the visited set and the ids
    named by the data. The recursion budget is one more than their number. *)
Definition ids_up (nodeMap : gmap string GalaxyNode) : list string :=
  concat (map (fun kn : string * GalaxyNode =>
      (default [] (n_prerequisites kn.2) ++ default [] (n_relatedCourses kn.2))%list)
    (map_to_list nodeMap)).

Definition ids_down (courses : list CourseNode) (projectNodes : list ProjectNode)
    (algoEdges : list ConstellationEdge) : list string :=
  map c_id courses ++ map p_id projectNodes ++ map e_target algoEdges.

Definition chainFuel (ids : list string) (visited : gset string) : nat :=
  S (S (length ids + size visited)).

(** [collectPrereqChain(nodeId, visited)], the same in both modules. *)
Definition collectPrereqChain (nodeMap : gmap string GalaxyNode) (nodeId : string)
    (visited : gset string) : option (gset string) :=
  dfs (next_up nodeMap) (chainFuel (ids_up nodeMap) visited) visited nodeId.

(** [collectDownstreamChain(nodeId, visited)] of [GalaxyInteraction.ts]. *)
Definition collectDownstreamChain_module (courses : list CourseNode)
    (projectNodes : list ProjectNode) (nodeId : string) (visited : gset string)
    : option (gset string) :=
  dfs (next_down_module courses projectNodes)
    (chainFuel (ids_down courses projectNodes []) visited) visited nodeId.

(** [collectDownstreamChain(nodeId, visited)] of the galaxy view. *)
Definition collectDownstreamChain_view (courses : list CourseNode)
    (projectNodes : list ProjectNode) (algoEdges : list ConstellationEdge)
    (nodeId : string) (visited : gset string) : option (gset string) :=
  dfs (next_down_view courses projectNodes algoEdges)
    (chainFuel (ids_down courses projectNodes algoEdges) visited) visited nodeId.

(* ================================================================= *)
(** ** Generic facts about [dfs] *)

Section DfsFacts.
Variable next : string -> list string.
Local Open Scope nat_scope.

Lemma reach_trans x y z : reach next x y -> reach next y z -> reach next x z.
Proof.
  induction 1 as [x | x y' w Hy Hr IH]; intros Hyz; [done |].
  econstructor; [exact Hy | auto].
Qed.

Lemma reach_snoc x y z : reach next x y -> z ∈ next y -> reach next x z.
Proof.
  intros Hxy Hz. apply (reach_trans _ _ _ Hxy). econstructor; [exact Hz | constructor].
Qed.

(** Termination: inside a finite set [U] closed under [next], a budget
    larger than the number of unvisited ids of [U] is never exhausted.
    Each call either returns at once (already visited) or adds its id,
    which makes the visited set strictly larger. *)
Lemma dfs_total (U : gset string) (HU : forall y z, y ∈ U -> z ∈ next y -> z ∈ U) :
  forall f v x, v ⊆ U -> x ∈ U -> size U - size v < f ->
  exists r, dfs next f v x = Some r /\ v ⊆ r /\ r ⊆ U.
Proof.
  induction f as [|f IH]; intros v x Hv Hx Hs; [lia |].
  simpl. case_decide; [eauto |].
  assert (Hlt : size v < size ({[x]} ∪ v)) by (apply subset_size; set_solver).
  assert (Hys : forall y, y ∈ next x -> y ∈ U) by eauto.
  assert (Hloop : forall ys w, (forall y, y ∈ ys -> y ∈ U) -> {[x]} ∪ v ⊆ w -> w ⊆ U ->
    exists r, forM (dfs next f) ys w = Some r /\ w ⊆ r /\ r ⊆ U).
  { induction ys as [|y ys IHys]; intros w Hy Hw HwU; simpl; [eauto |].
    assert (size ({[x]} ∪ v) <= size w) by (apply subseteq_size; done).
    assert (size w <= size U) by (apply subseteq_size; done).
    destruct (IH w y) as (w1 & Hw1 & Hsub1 & Hsub2);
      [done | apply Hy; apply elem_of_cons; auto | lia |].
    rewrite Hw1.
    destruct (IHys w1) as (r & Hr & Hsub3 & Hsub4);
      [intros y' Hy'; apply Hy; apply elem_of_cons; auto | set_solver | done |].
    exists r. split; [done | set_solver]. }
  destruct (Hloop (next x) ({[x]} ∪ v)) as (r & Hr & Hsub1 & Hsub2);
    [exact Hys | set_solver | set_solver |].
  exists r. split; [done | set_solver].
Qed.

(** Soundness: every id of the result was visited before or is reachable. *)
Lemma dfs_sound f : forall v x r, dfs next f v x = Some r ->
  forall z, z ∈ r -> z ∈ v \/ reach next x z.
Proof.
  induction f as [|f IH]; intros v x r Hr z Hz; simpl in Hr; [discriminate |].
  case_decide; [injection Hr as <-; auto |].
  assert (Hloop : forall ys w r, (forall y, y ∈ ys -> y ∈ next x) ->
    forM (dfs next f) ys w = Some r -> forall z, z ∈ r -> z ∈ w \/ reach next x z).
  { induction ys as [|y ys IHys]; intros w r' Hys Hr' z' Hz'; simpl in Hr'.
    - injection Hr' as <-. auto.
    - destruct (dfs next f w y) as [w1|] eqn:Hw1; [| discriminate].
      destruct (IHys w1 r' ltac:(intros; apply Hys; apply elem_of_cons; auto) Hr' z' Hz')
        as [Hin | Hreach]; [| auto].
      destruct (IH w y w1 Hw1 z' Hin) as [Hin' | Hreach']; [auto |].
      right. econstructor; [apply Hys; apply elem_of_cons; auto | exact Hreach']. }
  destruct (Hloop (next x) _ r (fun y H => H) Hr z Hz) as [Hin | Hreach]; [| auto].
  apply elem_of_union in Hin as [Hin | Hin]; [| auto].
  apply elem_of_singleton in Hin as ->. right. constructor.
Qed.

(** Completeness invariant: the result contains the start and the old
    set, and every id it adds has all its successors in it. *)
Lemma dfs_closed f : forall v x r, dfs next f v x = Some r ->
  v ⊆ r /\ x ∈ r /\ (forall y z, y ∈ r -> y ∉ v -> z ∈ next y -> z ∈ r).
Proof.
  induction f as [|f IH]; intros v x r Hr; simpl in Hr; [discriminate |].
  case_decide; [injection Hr as <-; split_and!; [done | done | set_solver] |].
  assert (Hloop : forall ys w r, forM (dfs next f) ys w = Some r ->
    w ⊆ r /\ (forall y, y ∈ ys -> y ∈ r) /\ (forall y z, y ∈ r -> y ∉ w -> z ∈ next y -> z ∈ r)).
  { induction ys as [|y ys IHys]; intros w r' Hr'; simpl in Hr'.
    - injection Hr' as <-. split_and!; [done | intros y Hy; inversion Hy | set_solver].
    - destruct (dfs next f w y) as [w1|] eqn:Hw1; [| discriminate].
      destruct (IH w y w1 Hw1) as (Hs1 & Hy1 & Hc1).
      destruct (IHys w1 r' Hr') as (Hs2 & Hy2 & Hc2).
      split_and!.
      + set_solver.
      + intros y' Hy'. apply elem_of_cons in Hy' as [-> | Hy']; [set_solver | auto].
      + intros y' z Hy' Hnot Hz.
        destruct (decide (y' ∈ w1)) as [Hin | Hout]; [| eauto].
        apply Hs2. eauto. }
  destruct (Hloop (next x) _ r Hr) as (Hs & Hy & Hc).
  split_and!; [set_solver | set_solver |].
  intros y z Hyr Hyv Hz.
  destruct (decide (y = x)) as [-> | Hne]; [auto |].
  apply (Hc y z Hyr); [set_solver | done].
Qed.

(** From an empty visited set the result holds everything reachable. *)
Lemma dfs_complete f x r : dfs next f ∅ x = Some r ->
  forall z, reach next x z -> z ∈ r.
Proof.
  intros Hr. destruct (dfs_closed f ∅ x r Hr) as (_ & Hx & Hc).
  assert (Hgen : forall a z, reach next a z -> a ∈ r -> z ∈ r).
  { induction 1 as [a | a b c Hb Hbc IHr]; intros Ha; [done |].
    apply IHr. apply (Hc a b Ha); [set_solver | done]. }
  intros z Hz. eauto.
Qed.
End DfsFacts.

(* ================================================================= *)
(** ** List and set helpers *)

Lemma elem_of_map_iff {A B} (f : A -> B) (l : list A) (y : B) :
  y ∈ map f l <-> exists x, y = f x /\ x ∈ l.
Proof.
  rewrite list_elem_of_In, in_map_iff. setoid_rewrite list_elem_of_In. naive_solver.
Qed.

Lemma elem_of_concat_iff {A} (ls : list (list A)) (y : A) :
  y ∈ concat ls <-> exists l, y ∈ l /\ l ∈ ls.
Proof.
  rewrite list_elem_of_In, in_concat. setoid_rewrite list_elem_of_In. naive_solver.
Qed.

Lemma size_union_le (X Y : gset string) : (size (X ∪ Y) <= size X + size Y)%nat.
Proof.
  rewrite size_union_alt. pose proof (subseteq_size (Y ∖ X) Y ltac:(set_solver)). lia.
Qed.

Lemma size_list_to_set_le (l : list string) :
  (size (list_to_set l : gset string) <= length l)%nat.
Proof.
  induction l as [|a l IH].
  - rewrite list_to_set_nil, size_empty. simpl. lia.
  - rewrite list_to_set_cons. pose proof (size_union_le {[a]} (list_to_set l)).
    rewrite size_singleton in *. simpl. lia.
Qed.

(** A traversal whose successors all lie in [ids] finishes within
    [chainFuel ids visited]. *)
Lemma dfs_chainFuel (next : string -> list string) (ids : list string)
    (Hids : forall y z, z ∈ next y -> z ∈ ids) :
  forall v x, exists r, dfs next (chainFuel ids v) v x = Some r.
Proof.
  intros v x.
  set (U := {[x]} ∪ v ∪ (list_to_set ids : gset string)).
  assert (HU : forall y z, y ∈ U -> z ∈ next y -> z ∈ U).
  { intros y z _ Hz. apply Hids in Hz. unfold U. set_solver. }
  assert (Hsize : (size U <= 1 + size v + length ids)%nat).
  { unfold U. pose proof (size_union_le ({[x]} ∪ v) (list_to_set ids)).
    pose proof (size_union_le {[x]} v). pose proof (size_list_to_set_le ids).
    rewrite size_singleton in *. lia. }
  destruct (dfs_total next U HU (chainFuel ids v) v x) as (r & Hr & _);
    [unfold U; set_solver | unfold U; set_solver | unfold chainFuel; lia |].
  eauto.
Qed.

Lemma next_up_ids nodeMap y z : z ∈ next_up nodeMap y -> z ∈ ids_up nodeMap.
Proof.
  unfold next_up, ids_up. destruct (nodeMap !! y) as [n|] eqn:Hy; [| intros Hz; inversion Hz].
  intros Hz. apply elem_of_concat_iff. eexists; split; [exact Hz |].
  apply elem_of_map_iff. exists (y, n). split; [done |]. by apply elem_of_map_to_list.
Qed.

Lemma next_down_view_ids courses projectNodes algoEdges y z :
  z ∈ next_down_view courses projectNodes algoEdges y ->
  z ∈ ids_down courses projectNodes algoEdges.
Proof.
  unfold next_down_view, ids_down. rewrite !elem_of_app, !elem_of_map_iff.
  intros [(c & -> & Hc) | [(p & -> & Hp) | (e & -> & He)]];
    apply list_elem_of_filter in Hc || apply list_elem_of_filter in Hp
    || apply list_elem_of_filter in He; naive_solver.
Qed.

Lemma next_down_module_ids courses projectNodes y z :
  z ∈ next_down_module courses projectNodes y -> z ∈ ids_down courses projectNodes [].
Proof.
  unfold next_down_module, ids_down. rewrite !elem_of_app, !elem_of_map_iff.
  intros [(c & -> & Hc) | (p & -> & Hp)];
    apply list_elem_of_filter in Hc || apply list_elem_of_filter in Hp; naive_solver.
Qed.

(* ================================================================= *)
(** ** The node map of the built galaxy *)

Lemma mkNodeMap_lookup_gen (l : list GalaxyNode) :
  forall (m : gmap string GalaxyNode) k n,
  fold_left (fun m n => <[n_id n := n]> m) l m !! k = Some n ->
  m !! k = Some n \/ (n ∈ l /\ n_id n = k).
Proof.
  induction l as [|a l IH]; intros m k n H; simpl in H; [auto |].
  destruct (IH _ _ _ H) as [Hm | [Hin Hid]].
  - rewrite lookup_insert in Hm. case_decide as Heq.
    + injection Hm as <-. right. split; [apply elem_of_cons; auto | done].
    + auto.
  - right. split; [apply elem_of_cons; auto | done].
Qed.

Lemma mkNodeMap_lookup (l : list GalaxyNode) k n :
  mkNodeMap l !! k = Some n -> n ∈ l /\ n_id n = k.
Proof.
  intros H. destruct (mkNodeMap_lookup_gen l ∅ k n H) as [He | He]; [| done].
  rewrite lookup_empty in He. discriminate.
Qed.

(** One upstream step of the built galaxy is one downstream step of the
    view backwards: the view's downstream scan covers every list that
    [collectPrereqChain] follows (course prerequisites, project related
    courses, algorithm-topic prerequisites). *)
Lemma up_step_down_view courses projectNodes tagStats skills a p :
  p ∈ next_up (mkNodeMap (galaxyNodes courses projectNodes tagStats skills)) a ->
  a ∈ next_down_view courses projectNodes (algoEdges tagStats) p.
Proof.
  unfold next_up.
  destruct (mkNodeMap (galaxyNodes courses projectNodes tagStats skills) !! a)
    as [n|] eqn:Hn; [| intros Hp; inversion Hp].
  apply mkNodeMap_lookup in Hn as [Hin <-].
  unfold galaxyNodes, buildGalaxyNodes in Hin. unfold next_down_view.
  intros Hp. rewrite !elem_of_app, !elem_of_map_iff.
  apply elem_of_app in Hin as [Hin | Hin].
  { apply list_elem_of_singleton in Hin as ->. cbn in Hp. inversion Hp. }
  apply elem_of_app in Hin as [Hin | Hin].
  { apply elem_of_map_iff in Hin as [c [-> Hc]].
    cbn in Hp. rewrite app_nil_r in Hp.
    left. exists c. split; [done |]. apply list_elem_of_filter. auto. }
  apply elem_of_app in Hin as [Hin | Hin].
  { apply elem_of_map_iff in Hin as [q [-> Hq]].
    cbn in Hp. right; left. exists q. split; [done |]. apply list_elem_of_filter. auto. }
  apply elem_of_app in Hin as [Hin | Hin].
  { apply elem_of_concat_iff in Hin as [l [Hl Hcl]].
    apply elem_of_map_iff in Hcl as [cl [-> _]].
    apply elem_of_map_iff in Hl as [ds [-> _]]. cbn in Hp. inversion Hp. }
  apply elem_of_app in Hin as [Hin | Hin].
  { unfold buildAlgorithmNodes in Hin. cbn [default fst] in Hin.
    apply elem_of_map_iff in Hin as [t [-> Ht]].
    unfold algoTopicNode in Hp. cbn [n_prerequisites n_relatedCourses default] in Hp.
    rewrite app_nil_r in Hp.
    right; right. exists {| e_source := p; e_target := t_id t; e_type := prerequisite |}.
    split; [done |]. apply list_elem_of_filter. split; [done |].
    unfold algoEdges, buildAlgorithmNodes. cbn [snd].
    apply elem_of_concat_iff. exists (algoTopicEdges t). split.
    - unfold algoTopicEdges. apply elem_of_map_iff. exists p. split; [done |].
      destruct (t_prerequisites t); [inversion Hp | exact Hp].
    - apply elem_of_map_iff. eauto. }
  { unfold buildSkillNodes in Hin. apply elem_of_map_iff in Hin as [s [-> _]].
    cbn in Hp. inversion Hp. }
Qed.

Lemma reach_up_down_view courses projectNodes tagStats skills a b :
  reach (next_up (mkNodeMap (galaxyNodes courses projectNodes tagStats skills))) a b ->
  reach (next_down_view courses projectNodes (algoEdges tagStats)) b a.
Proof.
  induction 1 as [a | a y b Hy Hyb IH]; [constructor |].
  eapply reach_snoc; [exact IH |]. exact (up_step_down_view _ _ _ skills _ _ Hy).
Qed.

(** Chain symmetry for the galaxy view's pair of traversals. *)
Lemma chain_symmetry_view courses projectNodes tagStats skills a b up :
  collectPrereqChain (mkNodeMap (galaxyNodes courses projectNodes tagStats skills)) a ∅
    = Some up ->
  b ∈ up ->
  exists down, collectDownstreamChain_view courses projectNodes (algoEdges tagStats) b ∅
    = Some down /\ a ∈ down.
Proof.
  intros Hup Hb.
  destruct (dfs_sound _ _ _ _ _ Hup b Hb) as [Hin | Hreach]; [set_solver |].
  destruct (dfs_chainFuel (next_down_view courses projectNodes (algoEdges tagStats))
    (ids_down courses projectNodes (algoEdges tagStats)) (next_down_view_ids _ _ _) ∅ b)
    as [down Hdown].
  exists down. split; [exact Hdown |].
  eapply dfs_complete; [exact Hdown |]. exact (reach_up_down_view _ _ _ skills _ _ Hreach).
Qed.

(* ================================================================= *)
(** ** Claims about chain tracing *)

(** C8 (traversal termination): for every node graph and every start id and
    visited set, including graphs whose prerequisite or related-course lists
    form cycles, [collectPrereqChain] and both versions of
    [collectDownstreamChain] finish: a recursion budget of two more than the
    number of ids named by the data plus the size of the visited set is
    never exhausted (each call returns on a visited id or adds a new one). *)
Theorem chain_traversals_terminate (nodeMap : gmap string GalaxyNode)
    (courses : list CourseNode) (projectNodes : list ProjectNode)
    (aedges : list ConstellationEdge) (nodeId : string) (visited : gset string) :
  (exists r, collectPrereqChain nodeMap nodeId visited = Some r) /\
  (exists r, collectDownstreamChain_view courses projectNodes aedges nodeId visited = Some r) /\
  (exists r, collectDownstreamChain_module courses projectNodes nodeId visited = Some r).
Proof.
  split_and!.
  - apply dfs_chainFuel. apply next_up_ids.
  - apply dfs_chainFuel. apply next_down_view_ids.
  - apply dfs_chainFuel. apply next_down_module_ids.
Qed.

(** C2 (chain symmetry), at the failing input: on the built galaxy with the
    algorithm topics, ["algo-array-hash"] is upstream of ["algo-string"], but
    the downstream traversal of [GalaxyInteraction.ts], which does not follow
    the algorithm prerequisite edges, does not reach ["algo-string"] from
    ["algo-array-hash"]. (The galaxy view's pair satisfies the property for
    all inputs: [chain_symmetry_view].) *)
Theorem chain_symmetry_module_algo_fails :
  (exists up,
     collectPrereqChain (mkNodeMap (galaxyNodes [] [] [] [])) "algo-string" ∅ = Some up
     /\ "algo-array-hash" ∈ up) /\
  (exists down,
     collectDownstreamChain_module [] [] "algo-array-hash" ∅ = Some down
     /\ "algo-string" ∉ down).
Proof.
  split.
  - assert (E : option_map (fun up => bool_decide ("algo-array-hash" ∈ up))
      (collectPrereqChain (mkNodeMap (galaxyNodes [] [] [] [])) "algo-string" ∅)
      = Some true) by (vm_compute; reflexivity).
    destruct (collectPrereqChain _ _ _) as [up|]; [| discriminate].
    exists up. split; [done |]. injection E as E. exact (bool_decide_eq_true_1 _ E).
  - assert (E : option_map (fun down => bool_decide ("algo-string" ∉ down))
      (collectDownstreamChain_module [] [] "algo-array-hash" ∅)
      = Some true) by (vm_compute; reflexivity).
    destruct (collectDownstreamChain_module _ _ _ _) as [down|]; [| discriminate].
    exists down. split; [done |]. injection E as E. exact (bool_decide_eq_true_1 _ E).
Qed.

(** C10 (the two [collectDownstreamChain] agree), at the failing input: with
    no courses or projects and the algorithm prerequisite edges, the galaxy
    view's traversal from ["algo-array-hash"] reaches ["algo-string"] and the
    one of [GalaxyInteraction.ts] does not. *)
Theorem downstream_module_differs_from_view :
  exists dv dm,
    collectDownstreamChain_view [] [] (algoEdges []) "algo-array-hash" ∅ = Some dv /\
    collectDownstreamChain_module [] [] "algo-array-hash" ∅ = Some dm /\
    "algo-string" ∈ dv /\ ("algo-string" ∉ dm) /\ dv ≠ dm.
Proof.
  assert (Ev : option_map (fun dv => bool_decide ("algo-string" ∈ dv))
    (collectDownstreamChain_view [] [] (algoEdges []) "algo-array-hash" ∅)
    = Some true) by (vm_compute; reflexivity).
  assert (Em : option_map (fun dm => bool_decide ("algo-string" ∉ dm))
    (collectDownstreamChain_module [] [] "algo-array-hash" ∅)
    = Some true) by (vm_compute; reflexivity).
  destruct (collectDownstreamChain_view _ _ _ _ _) as [dv|]; [| discriminate].
  destruct (collectDownstreamChain_module _ _ _ _) as [dm|]; [| discriminate].
  injection Ev as Ev. injection Em as Em.
  apply bool_decide_eq_true_1 in Ev, Em.
  exists dv, dm. split_and!; [done | done | exact Ev | exact Em |].
  intros Heq. apply Em. rewrite <- Heq. exact Ev.
Qed.

(* ================================================================= *)
(** ** Claims about the graph builder *)

Lemma Qle_lit (a b : Z) (c d : positive) :
  (a * Zpos d <= b * Zpos c)%Z -> a # c <= b # d.
Proof. unfold Qle. simpl. lia. Qed.

(** C4 (grade classification): [gradeToMastery] is total with values in
    [[0,1]] for every grade, missing ones included; it follows the table
    A+ 1, A 0.85, A- 0.7, B+ 0.55, B 0.45, P 0.5; a missing (or empty)
    grade gives 0.5 and any other grade the default 0.4; and a course graded
    A+ gets a node with mastery 1 and the top star class ([hypergiant]). *)
Theorem gradeToMastery_spec :
  (forall grade, 0 <= gradeToMastery grade /\ gradeToMastery grade <= 1) /\
  gradeToMastery (Some "A+") = 1 /\
  gradeToMastery (Some "A") = 85#100 /\
  gradeToMastery (Some "A-") = 70#100 /\
  gradeToMastery (Some "B+") = 55#100 /\
  gradeToMastery (Some "B") = 45#100 /\
  gradeToMastery (Some "P") = 1#2 /\
  gradeToMastery None = 1#2 /\
  (forall g, g ∉ ["A+"; "A"; "A-"; "B+"; "B"; "P"] ->
     gradeToMastery (Some g) = if bool_decide (g = "") then 1#2 else 40#100) /\
  (forall c : CourseNode, c_grade c = "A+" ->
     n_mastery (courseGalaxyNode c) = 1 /\ n_starClass (courseGalaxyNode c) = hypergiant).
Proof.
  split_and!; try reflexivity.
  - intros [g|]; simpl; [| split; apply Qle_lit; lia].
    repeat case_bool_decide; split; apply Qle_lit; lia.
  - intros g Hg. simpl.
    repeat rewrite elem_of_cons in Hg. rewrite elem_of_nil in Hg.
    repeat case_bool_decide; naive_solver.
  - intros c Hc. unfold courseGalaxyNode. simpl. rewrite Hc. split; [reflexivity |].
    destruct (c_nodeType c) as [[] |]; reflexivity.
Qed.

Lemma courseClusterOverrides_nonempty k v :
  courseClusterOverrides !! k = Some v -> v ≠ "".
Proof.
  unfold courseClusterOverrides. rewrite lookup_singleton.
  case_decide; [intros [= <-]; discriminate | discriminate].
Qed.


Lemma in_buildGalaxyNodes_course courses projectNodes cls algo skills c :
  c ∈ courses -> courseGalaxyNode c ∈ buildGalaxyNodes courses projectNodes cls algo skills.
Proof.
  intros Hc. unfold buildGalaxyNodes. rewrite !elem_of_app, elem_of_map_iff. eauto.
Qed.

(** The course [toString] on the track [ml]. *)
Definition course_toString : CourseNode :=
  {| c_id := "toString"; c_name := "toString"; c_track := "ml";
     c_grade := "A"; c_prerequisites := None; c_relatedProjects := None;
     c_nodeType := None |}.





(* ================================================================= *)
(** ** Edges and the node-id set *)

Lemma mkNodeMap_has_gen (l : list GalaxyNode) :
  forall (m : gmap string GalaxyNode) k,
  is_Some (m !! k) \/ k ∈ map n_id l ->
  is_Some (fold_left (fun m n => <[n_id n := n]> m) l m !! k).
Proof.
  induction l as [|a l IH]; intros m k H; simpl.
  - destruct H as [H | H]; [done | inversion H].
  - apply IH. rewrite lookup_insert. case_decide; [left; done |].
    destruct H as [H | H]; [auto |].
    apply elem_of_cons in H as [-> | H]; [done | auto].
Qed.

(** [nodeMap.has(k)] holds exactly for the ids of the built nodes. *)
Lemma mkNodeMap_has (l : list GalaxyNode) k :
  is_Some (mkNodeMap l !! k) <-> k ∈ map n_id l.
Proof.
  split.
  - intros [n Hn]. apply mkNodeMap_lookup in Hn as [Hin <-].
    apply elem_of_map_iff. eauto.
  - intros H. apply mkNodeMap_has_gen. auto.
Qed.

Definition course_C1_dangling : CourseNode :=
  {| c_id := "C1"; c_name := "C1"; c_track := "math"; c_grade := "A";
     c_prerequisites := Some ["X"]; c_relatedProjects := None; c_nodeType := None |}.

(** C1, counterexample: a course whose prerequisite list names an id that
    is no course; [buildEdges] emits the edge X -> C1 although no node with
    id X is built. *)
Lemma buildEdges_emits_dangling_edge :
  {| e_source := "X"; e_target := "C1"; e_type := prerequisite |}
    ∈ buildEdges [course_C1_dangling] [] None /\
  "X" ∉ map n_id (buildGalaxyNodes [course_C1_dangling] [] clusters None []).
Proof.
  split.
  - apply elem_of_app. left. simpl. apply list_elem_of_singleton. reflexivity.
  - apply (bool_decide_unpack _). vm_compute. reflexivity.
Qed.

(** C1 (edge validity), as the code does it: the galaxy view's [validEdges]
    keeps exactly the edges of [buildEdges] whose source and target are both
    ids produced by [buildGalaxyNodes]; the others are dropped silently. *)
Theorem validEdges_endpoints (courses : list CourseNode) (projectNodes : list ProjectNode)
    (cls : list SkillCluster) (algoNodes : option (list GalaxyNode))
    (aedges : option (list ConstellationEdge)) (skills : list SkillRegistryEntry)
    (e : ConstellationEdge) :
  let nodes := buildGalaxyNodes courses projectNodes cls algoNodes skills in
  e ∈ validEdges (mkNodeMap nodes) (buildEdges courses projectNodes aedges) <->
  e ∈ buildEdges courses projectNodes aedges /\
  e_source e ∈ map n_id nodes /\ e_target e ∈ map n_id nodes.
Proof.
  intros nodes. unfold validEdges. rewrite list_elem_of_filter, !mkNodeMap_has. tauto.
Qed.

(* ================================================================= *)
(** ** Overclock targets ([collectUpstreamSkills]) *)

(** [['project', 'thesis', 'publication', 'internship', 'repo'].includes(node.nodeType)]. *)
Definition isProjectLike (nt : GNodeType) : bool :=
  match nt with
  | GNT NT_project | GNT NT_thesis | GNT NT_publication
  | GNT NT_internship | GNT NT_repo => true
  | _ => false
  end.

(** [for (const pre of l) upstream.add(pre)]. *)
Definition addAll (l : list string) (upstream : gset string) : gset string :=
  fold_left (fun u pre => {[pre]} ∪ u) l upstream.

(** [collectUpstreamSkills(nodeId)], the same in both modules. *)
Definition collectUpstreamSkills (nodeMap : gmap string GalaxyNode) (nodeId : string)
    : gset string :=
  match nodeMap !! nodeId with
  | None => ∅
  | Some node =>
    if negb (isProjectLike (n_nodeType node)) && negb (default false (n_isStarGate node))
    then ∅
    else
      let upstream :=
        fold_left (fun up cid =>
            let up1 := {[cid]} ∪ up in
            match nodeMap !! cid with
            | Some cNode => addAll (default [] (n_prerequisites cNode)) up1
            | None => up1
            end)
          (default [] (n_relatedCourses node)) ∅ in
      addAll (default [] (n_prerequisites node)) upstream
  end.

Lemma elem_of_addAll l u z : z ∈ addAll l u <-> z ∈ l \/ z ∈ u.
Proof.
  revert u. induction l as [|a l IH]; intros u; simpl.
  - rewrite elem_of_nil. tauto.
  - rewrite IH, elem_of_cons, elem_of_union, elem_of_singleton. tauto.
Qed.

Lemma elem_of_related_fold (nodeMap : gmap string GalaxyNode) (rel : list string) :
  forall u z,
  z ∈ fold_left (fun up cid =>
          let up1 := {[cid]} ∪ up in
          match nodeMap !! cid with
          | Some cNode => addAll (default [] (n_prerequisites cNode)) up1
          | None => up1
          end) rel u <->
  z ∈ u \/ z ∈ rel \/
  (exists cid c, cid ∈ rel /\ nodeMap !! cid = Some c /\ z ∈ default [] (n_prerequisites c)).
Proof.
  induction rel as [|a rel IH]; intros u z; simpl.
  - split; [tauto |]. intros [H | [H | (cid & c & H & _)]]; [done | inversion H | inversion H].
  - rewrite IH. setoid_rewrite elem_of_cons.
    destruct (nodeMap !! a) as [ca|] eqn:Ha.
    + rewrite elem_of_addAll, elem_of_union, elem_of_singleton.
      split.
      * intros [[Hz | [Hz | Hz]] | [Hz | (cid & c & Hcid & Hc & Hz)]].
        -- right; right. exists a, ca. auto.
        -- right; left; auto.
        -- left; auto.
        -- right; left; auto.
        -- right; right. exists cid, c. auto.
      * intros [Hz | [[Hz | Hz] | (cid & c & [-> | Hcid] & Hc & Hz)]].
        -- left; right; right; auto.
        -- left; right; left; auto.
        -- right; left; auto.
        -- rewrite Ha in Hc. injection Hc as <-. left; left; auto.
        -- right; right. exists cid, c. auto.
    + rewrite elem_of_union, elem_of_singleton.
      split.
      * intros [[Hz | Hz] | [Hz | (cid & c & Hcid & Hc & Hz)]].
        -- right; left; auto.
        -- left; auto.
        -- right; left; auto.
        -- right; right. exists cid, c. auto.
      * intros [Hz | [[Hz | Hz] | (cid & c & [-> | Hcid] & Hc & Hz)]].
        -- left; right; auto.
        -- left; left; auto.
        -- right; left; auto.
        -- rewrite Ha in Hc. discriminate.
        -- right; right. exists cid, c. auto.
Qed.

Definition course_R_repo : CourseNode :=
  {| c_id := "R"; c_name := "R"; c_track := "systems"; c_grade := "A";
     c_prerequisites := Some ["Y"]; c_relatedProjects := None;
     c_nodeType := Some NT_repo |}.

(** C3, counterexample: a course record typed [repo] is a project-like node
    without related courses, yet its overclock targets contain its own
    prerequisite ["Y"], which is neither a related course id nor a
    prerequisite of one. *)
Lemma overclock_includes_own_prerequisites :
  (exists node,
     mkNodeMap (buildGalaxyNodes [course_R_repo] [] clusters None []) !! "R" = Some node /\
     isProjectLike (n_nodeType node) = true /\ n_relatedCourses node = None) /\
  "Y" ∈ collectUpstreamSkills (mkNodeMap (buildGalaxyNodes [course_R_repo] [] clusters None [])) "R".
Proof.
  split.
  - eexists. split; [vm_compute; reflexivity | split; reflexivity].
  - apply (bool_decide_unpack _). vm_compute. reflexivity.
Qed.

Definition course_C1 : CourseNode :=
  {| c_id := "C1"; c_name := "C1"; c_track := "math"; c_grade := "A+";
     c_prerequisites := Some []; c_relatedProjects := None; c_nodeType := None |}.

Definition project_P1 : ProjectNode :=
  {| p_id := "P1"; p_name := "P1"; p_relatedCourses := ["C1"];
     p_track := None; p_nodeType := None |}.

(** C3 (overclock targets), as the code does it: the result is empty for an
    id with no node and for a node that is neither project-like nor a star
    gate; for a project-like or star-gate node it is its related course ids,
    the prerequisite ids of the node each related id maps to (one hop, no
    deeper), and the node's own prerequisite ids. Nodes built from project
    records have no prerequisites, so for them the last part is empty; for a
    project P1 related to a course C1 without prerequisites the result is
    exactly [{"C1"}]. *)
Theorem collectUpstreamSkills_spec :
  (forall (nodeMap : gmap string GalaxyNode) nodeId z,
     z ∈ collectUpstreamSkills nodeMap nodeId <->
     exists node, nodeMap !! nodeId = Some node /\
       (isProjectLike (n_nodeType node) = true \/ default false (n_isStarGate node) = true) /\
       (z ∈ default [] (n_relatedCourses node) \/
        (exists cid c, cid ∈ default [] (n_relatedCourses node) /\
           nodeMap !! cid = Some c /\ z ∈ default [] (n_prerequisites c)) \/
        z ∈ default [] (n_prerequisites node))) /\
  (forall p, n_prerequisites (projectGalaxyNode p) = None) /\
  collectUpstreamSkills (mkNodeMap (buildGalaxyNodes [course_C1] [project_P1] clusters None []))
    "P1" = {["C1"]}.
Proof.
  split_and!; [| reflexivity | vm_compute; reflexivity].
  intros nodeMap nodeId z. unfold collectUpstreamSkills.
  destruct (nodeMap !! nodeId) as [node|] eqn:Hn.
  - destruct (isProjectLike (n_nodeType node)) eqn:Hp;
      destruct (default false (n_isStarGate node)) eqn:Hs; simpl.
    4: { split; [set_solver |]. intros (n' & [= <-] & [H | H] & _); congruence. }
    all: rewrite elem_of_addAll, elem_of_related_fold; split;
      [ intros [H | [H | [H | H]]]; [| set_solver | |];
        exists node; split_and!; auto
      | intros (n' & [= <-] & _ & [H | [H | H]]); auto ].
    all: try (exfalso; set_solver).
  - split; [set_solver | intros (n' & [=] & _)].
Qed.

(** * Layered layout of the galaxy view (anchors and the CORE pin) *)

(** [const scale = Math.min(width, height) / 800]. *)
Definition layoutScale (width height : R) : R := (Rmin width height / 800)%R.

(** [clusterCenters.set(cluster.id, {x: Math.cos(cluster.angle) * cluster.radius * scale,
    y: Math.sin(cluster.angle) * cluster.radius * scale})] for each cluster in order. *)
Definition clusterCenters (cls : list SkillCluster) (scale : R) : gmap string (R * R) :=
  fold_left (fun m cluster =>
      <[cl_id cluster := (cos (cl_angle cluster) * cl_radius cluster * scale,
                          sin (cl_angle cluster) * cl_radius cluster * scale)%R]> m)
    cls ∅.

(** The node objects of [galaxyNodes], each named by its position in the array. *)
Fixpoint indexed (k : nat) (l : list GalaxyNode) : list (nat * GalaxyNode) :=
  match l with
  | [] => []
  | n :: l' => (k, n) :: indexed (S k) l'
  end.

(** [new Map(galaxyNodes.map(n => [n.id, n]))], resolving an id to the (last)
    node object carrying it. *)
Definition nodeIndexMap (galaxyNodes : list GalaxyNode) : gmap string nat :=
  fold_left (fun m '(i, n) => <[n_id n := i]> m) (indexed 0 galaxyNodes) ∅.

(** [const l = n.layer === 'core' ? 'inner' : n.layer]. *)
Definition layerKey (l : NodeLayer) : NodeLayer :=
  match l with L_core => L_inner | l => l end.

(** Node positions [(x, y)], by node object. *)
Definition Positions := gmap nat (R * R).

(** Every builder creates its nodes with [x: 0, y: 0]. *)
Definition initialPositions (galaxyNodes : list GalaxyNode) : Positions :=
  fold_left (fun p '(i, _) => <[i := (0, 0)%R]> p) (indexed 0 galaxyNodes) ∅.

Section Layout.

(** One d3 force simulation of a layer group (120 ticks of centring, collision
    and a radial force with a [Math.random] jittered radius). It is left
    abstract: [simulate k center layer group pos] is the list of final
    positions of the group's nodes for the [k]-th simulation run, from the
    current positions [pos]. *)
Variable simulate : nat -> R * R -> NodeLayer -> list (nat * GalaxyNode) -> Positions -> list (R * R).

(** [for (const node of layerNodes) { node.x = sn.x; node.y = sn.y; }]. *)
Definition writeBack (grp : list (nat * GalaxyNode)) (xys : list (R * R)) (pos : Positions)
    : Positions :=
  fold_left (fun p '((i, _), xy) => <[i := xy]> p) (zip grp xys) pos.

(** One layer group: skipped when empty, otherwise simulated and written back. *)
Definition runGroup (center : R * R) (st : nat * Positions)
    (lg : NodeLayer * list (nat * GalaxyNode)) : nat * Positions :=
  let '(k, pos) := st in
  let '(l, grp) := lg in
  match grp with
  | [] => st
  | _ => (S k, writeBack grp (simulate k center l grp pos) pos)
  end.

(** The body of [for (const cluster of clusters)]: the cluster's non-CORE
    nodes, grouped by layer in the order [inner, mid, outer, stargate]. A
    missing centre only fails once it is used, i.e. for a non-empty cluster. *)
Definition runCluster (galaxyNodes : list GalaxyNode) (centers : gmap string (R * R))
    (st : nat * Positions) (cluster : SkillCluster) : option (nat * Positions) :=
  let clusterNodes :=
    filter (fun '(_, n) => n_clusterId n = cid_str (cl_id cluster) /\ n_id n <> "CORE")
      (indexed 0 galaxyNodes) in
  match clusterNodes with
  | [] => Some st
  | _ =>
    match centers !! cl_id cluster with
    | None => None
    | Some center =>
      let layerGroups :=
        map (fun l => (l, filter (fun '(_, n) => layerKey (n_layer n) = l) clusterNodes))
          [L_inner; L_mid; L_outer; L_stargate] in
      Some (fold_left (runGroup center) layerGroups st)
    end
  end.

(** The layered layout: the cluster anchors, then [nodeMap.get('CORE')!] set
    to the origin (failing when there is no CORE node), then the per-cluster
    simulations. Returns the anchors and the final node positions. *)
Definition layout (galaxyNodes : list GalaxyNode) (cls : list SkillCluster) (width height : R)
    : option (gmap string (R * R) * Positions) :=
  let scale := layoutScale width height in
  let centers := clusterCenters cls scale in
  match nodeIndexMap galaxyNodes !! "CORE" with
  | None => None
  | Some ci =>
    let pos0 : Positions := <[ci := (0, 0)%R]> (initialPositions galaxyNodes) in
    match fold_left (fun ost cluster => ost ≫= fun st => runCluster galaxyNodes centers st cluster)
            cls (Some (0%nat, pos0)) with
    | None => None
    | Some (_, pos) => Some (centers, pos)
    end
  end.

End Layout.

Lemma indexed_lookup (l : list GalaxyNode) :
  forall k i n, (i, n) ∈ indexed k l -> (k <= i)%nat /\ l !! (i - k)%nat = Some n.
Proof.
  induction l as [|a l IH]; intros k i n Hin; simpl in Hin.
  - apply elem_of_nil in Hin. contradiction.
  - apply elem_of_cons in Hin as [[= -> ->] | Hin].
    + rewrite Nat.sub_diag. split; [lia | reflexivity].
    + destruct (IH _ _ _ Hin) as [Hle Hl].
      replace (i - k)%nat with (S (i - S k)) by lia. split; [lia | exact Hl].
Qed.

Lemma indexed_unique (l : list GalaxyNode) i n m :
  (i, n) ∈ indexed 0 l -> (i, m) ∈ indexed 0 l -> n = m.
Proof.
  intros Hn Hm. apply indexed_lookup in Hn as [_ Hn]. apply indexed_lookup in Hm as [_ Hm].
  congruence.
Qed.

Lemma indexed_ids (l : list GalaxyNode) :
  forall k, map (fun p => n_id p.2) (indexed k l) = map n_id l.
Proof. induction l as [|a l IH]; intros k; simpl; [done | by rewrite IH]. Qed.

Lemma nodeIndexMap_lookup_gen (L : list (nat * GalaxyNode)) :
  forall (m : gmap string nat) k i,
  fold_left (fun m '(i, n) => <[n_id n := i]> m) L m !! k = Some i ->
  m !! k = Some i \/ exists n, (i, n) ∈ L /\ n_id n = k.
Proof.
  induction L as [|[j a] L IH]; intros m k i H; simpl in H; [auto |].
  destruct (IH _ _ _ H) as [Hm | (n & Hin & Hid)].
  - destruct (decide (n_id a = k)) as [<- | Hne].
    + rewrite lookup_insert_eq in Hm. injection Hm as <-.
      right. exists a. split; [apply elem_of_cons; left |]; done.
    + rewrite lookup_insert_ne in Hm by done. auto.
  - right. exists n. split; [apply elem_of_cons; right |]; done.
Qed.

Lemma nodeIndexMap_has_gen (L : list (nat * GalaxyNode)) :
  forall (m : gmap string nat) k,
  is_Some (m !! k) \/ k ∈ map (fun p => n_id p.2) L ->
  is_Some (fold_left (fun m '(i, n) => <[n_id n := i]> m) L m !! k).
Proof.
  induction L as [|[j a] L IH]; intros m k H; simpl in *.
  - destruct H as [H | H]; [exact H | apply elem_of_nil in H; contradiction].
  - apply IH. destruct H as [H | H].
    + left. destruct (decide (n_id a = k)) as [<- | Hne].
      * rewrite lookup_insert_eq. eauto.
      * rewrite lookup_insert_ne by done. exact H.
    + apply elem_of_cons in H as [<- | H]; [left; rewrite lookup_insert_eq; eauto | auto].
Qed.

Lemma nodeIndexMap_core (nodes : list GalaxyNode) :
  "CORE" ∈ map n_id nodes ->
  exists ci n, nodeIndexMap nodes !! "CORE" = Some ci /\ nodes !! ci = Some n /\
    n_id n = "CORE" /\ (ci, n) ∈ indexed 0 nodes.
Proof.
  intros H. unfold nodeIndexMap.
  destruct (nodeIndexMap_has_gen (indexed 0 nodes) ∅ "CORE") as [ci Hci].
  { right. by rewrite indexed_ids. }
  destruct (nodeIndexMap_lookup_gen _ _ _ _ Hci) as [He | (n & Hin & Hid)].
  - rewrite lookup_empty in He. discriminate.
  - exists ci, n. split_and!; try done.
    apply indexed_lookup in Hin as [_ Hl]. by rewrite Nat.sub_0_r in Hl.
Qed.

Lemma fold_insert_notin {A V} (key : A -> string) (val : A -> V) (l : list A) :
  forall (m : gmap string V) k, k ∉ map key l ->
  fold_left (fun m a => <[key a := val a]> m) l m !! k = m !! k.
Proof.
  induction l as [|a l IH]; intros m k Hk; simpl in *; [done |].
  rewrite elem_of_cons in Hk. rewrite IH by tauto.
  apply lookup_insert_ne. intros He. apply Hk. left. done.
Qed.

Lemma fold_insert_lookup_nodup {A V} (key : A -> string) (val : A -> V) (l : list A) :
  forall (m : gmap string V) x, NoDup (map key l) -> x ∈ l ->
  fold_left (fun m a => <[key a := val a]> m) l m !! key x = Some (val x).
Proof.
  induction l as [|a l IH]; intros m x Hnd Hx; simpl in *.
  - apply elem_of_nil in Hx. contradiction.
  - apply NoDup_cons in Hnd as [Hnin Hnd].
    apply elem_of_cons in Hx as [-> | Hx].
    + rewrite fold_insert_notin by done. apply lookup_insert_eq.
    + by apply IH.
Qed.

Lemma fold_insert_is_Some {A V} (key : A -> string) (val : A -> V) (l : list A) :
  forall (m : gmap string V) k, is_Some (m !! k) \/ k ∈ map key l ->
  is_Some (fold_left (fun m a => <[key a := val a]> m) l m !! k).
Proof.
  induction l as [|a l IH]; intros m k H; simpl in *.
  - destruct H as [H | H]; [exact H | apply elem_of_nil in H; contradiction].
  - apply IH. destruct H as [H | H].
    + left. destruct (decide (key a = k)) as [<- | Hne].
      * rewrite lookup_insert_eq. eauto.
      * rewrite lookup_insert_ne by done. exact H.
    + apply elem_of_cons in H as [<- | H]; [left; rewrite lookup_insert_eq; eauto | auto].
Qed.

Lemma clusterCenters_lookup cls scale c :
  NoDup (map cl_id cls) -> c ∈ cls ->
  clusterCenters cls scale !! cl_id c =
    Some (cos (cl_angle c) * cl_radius c * scale, sin (cl_angle c) * cl_radius c * scale)%R.
Proof.
  intros Hnd Hc. unfold clusterCenters.
  exact (fold_insert_lookup_nodup cl_id
           (fun c => (cos (cl_angle c) * cl_radius c * scale,
                      sin (cl_angle c) * cl_radius c * scale)%R) cls ∅ c Hnd Hc).
Qed.

Lemma clusterCenters_has cls scale c :
  c ∈ cls -> is_Some (clusterCenters cls scale !! cl_id c).
Proof.
  intros Hc. unfold clusterCenters.
  apply (fold_insert_is_Some cl_id
           (fun c => (cos (cl_angle c) * cl_radius c * scale,
                      sin (cl_angle c) * cl_radius c * scale)%R) cls ∅).
  right. apply elem_of_map_iff. eauto.
Qed.

(** Bounds on pi from the alternating Machin series
    [pi/4 = 2 atan(1/3) + atan(1/7)], its partial sums computed in [Q]. *)
Fixpoint qpow (x : Q) (n : nat) : Q :=
  match n with O => 1 | S k => x * qpow x k end.

Definition qtg (n : nat) : Q :=
  qpow (-1) n * (2 * (qpow (1#3) (2 * n + 1) / inject_Z (Z.of_nat (2 * n + 1)))
                 + qpow (1#7) (2 * n + 1) / inject_Z (Z.of_nat (2 * n + 1))).

Fixpoint qsum (n : nat) : Q :=
  match n with O => qtg 0 | S k => qsum k + qtg (S k) end.

Lemma Q2R_qpow x n : Q2R (qpow x n) = (Q2R x ^ n)%R.
Proof.
  induction n as [|n IH]; simpl.
  - unfold Q2R. simpl. field.
  - rewrite Q2R_mult, IH. reflexivity.
Qed.

Lemma Q2R_inject_Z z : Q2R (inject_Z z) = IZR z.
Proof. unfold Q2R, inject_Z. simpl. field. Qed.

Lemma qtg_spec n : AltSeries.tg_alt Machin.PI_2_3_7_tg n = Q2R (qtg n).
Proof.
  unfold AltSeries.tg_alt, Machin.PI_2_3_7_tg, Ratan.Ratan_seq, qtg.
  assert (Hn : ~ inject_Z (Z.of_nat (2 * n + 1)) == 0).
  { unfold Qeq. simpl. lia. }
  rewrite Q2R_mult, Q2R_plus, Q2R_mult, !Q2R_div by exact Hn.
  rewrite !Q2R_qpow, Q2R_inject_Z, <- INR_IZR_INZ.
  replace (Q2R (-1)) with (-1)%R by (unfold Q2R; simpl; field).
  replace (Q2R 2) with 2%R by (unfold Q2R; simpl; field).
  replace (Q2R (1#3)) with (/3)%R by (unfold Q2R; simpl; field).
  replace (Q2R (1#7)) with (/7)%R by (unfold Q2R; simpl; field).
  reflexivity.
Qed.

Lemma qsum_spec n : sum_f_R0 (AltSeries.tg_alt Machin.PI_2_3_7_tg) n = Q2R (qsum n).
Proof.
  induction n as [|n IH]; simpl; [apply qtg_spec |].
  rewrite IH, qtg_spec, Q2R_plus. reflexivity.
Qed.

Lemma PI_bounds : (MathPI + / IZR (10 ^ 16) < PI < MathPI + / IZR (10 ^ 15))%R.
Proof.
  destruct (Machin.PI_2_3_7_ineq 8) as [Hlo Hhi].
  rewrite qsum_spec in Hlo, Hhi.
  assert (Hq1 : (Q2R ((884279719003555 # 281474976710656) + (1 # 10 ^ 16))
                   < Q2R (4 * qsum (S (2 * 8))))%R).
  { apply Qlt_Rlt. vm_compute. reflexivity. }
  assert (Hq2 : (Q2R (4 * qsum (2 * 8))
                   < Q2R ((884279719003555 # 281474976710656) + (1 # 10 ^ 15)))%R).
  { apply Qlt_Rlt. vm_compute. reflexivity. }
  rewrite Q2R_mult, Q2R_plus in Hq1, Hq2.
  replace (Q2R 4) with 4%R in Hq1, Hq2 by (unfold Q2R; simpl; field).
  replace (Q2R (884279719003555 # 281474976710656)) with MathPI in Hq1, Hq2
    by (unfold Q2R, MathPI; reflexivity).
  replace (Q2R (1 # 10 ^ 16)) with (/ IZR (10 ^ 16))%R in Hq1
    by (unfold Q2R; cbn [Qnum Qden]; rewrite Rmult_1_l; reflexivity).
  replace (Q2R (1 # 10 ^ 15)) with (/ IZR (10 ^ 15))%R in Hq2
    by (unfold Q2R; cbn [Qnum Qden]; rewrite Rmult_1_l; reflexivity).
  lra.
Qed.

(** [Math.sin(Math.PI)] is a tiny positive number, not 0. *)
Lemma sin_MathPI : (0 < sin MathPI < / IZR (10 ^ 15))%R.
Proof.
  pose proof PI_bounds as [Hlo Hhi].
  assert (Hp : (3 < MathPI)%R) by (unfold MathPI; lra).
  rewrite <- sin_PI_x. split.
  - apply sin_gt_0; lra.
  - apply Rlt_trans with (PI - MathPI)%R; [apply Ratan.sin_lt_x |]; lra.
Qed.

(** [Math.cos(Math.PI)] lies in [[-1, 0)]. *)
Lemma cos_MathPI : (-1 <= cos MathPI < 0)%R.
Proof.
  pose proof PI_bounds as [Hlo Hhi].
  assert (Hp : (3 < MathPI)%R) by (unfold MathPI; lra).
  split; [apply COS_bound |]. apply cos_lt_0; lra.
Qed.

Section LayoutFacts.

Variable simulate : nat -> R * R -> NodeLayer -> list (nat * GalaxyNode) -> Positions -> list (R * R).
Variable ci : nat.

Lemma writeBack_other (grp : list (nat * GalaxyNode)) :
  forall xys pos, (forall i n, (i, n) ∈ grp -> i <> ci) ->
  writeBack grp xys pos !! ci = pos !! ci.
Proof.
  unfold writeBack.
  induction grp as [|[i n] grp IH]; intros xys pos H; [done |].
  destruct xys as [|xy xys]; [done |]. simpl.
  rewrite IH.
  - apply lookup_insert_ne. apply (H i n). apply elem_of_cons. by left.
  - intros j m Hj. apply (H j m). apply elem_of_cons. by right.
Qed.

Lemma runGroups_other center (lgs : list (NodeLayer * list (nat * GalaxyNode))) :
  forall st, (forall l grp i n, (l, grp) ∈ lgs -> (i, n) ∈ grp -> i <> ci) ->
  (fold_left (runGroup simulate center) lgs st).2 !! ci = st.2 !! ci.
Proof.
  induction lgs as [|[l grp] lgs IH]; intros [k pos] H; [done |]. simpl.
  rewrite IH.
  - destruct grp as [|g grp]; [done |]. simpl. apply writeBack_other.
    intros i n Hin. apply (H l (g :: grp) i n); [apply elem_of_cons; by left | exact Hin].
  - intros l' grp' i n Hl Hi. apply (H l' grp' i n); [apply elem_of_cons; by right | exact Hi].
Qed.

Lemma runCluster_other nodes centers st cluster st' ncore :
  (ci, ncore) ∈ indexed 0 nodes -> n_id ncore = "CORE" ->
  runCluster simulate nodes centers st cluster = Some st' -> st'.2 !! ci = st.2 !! ci.
Proof.
  intros Hci Hid. unfold runCluster.
  destruct (filter _ (indexed 0 nodes)) as [|p ps] eqn:Hf; [by intros [= <-] |].
  destruct (centers !! cl_id cluster) as [center|]; [| discriminate].
  remember (map _ [L_inner; L_mid; L_outer; L_stargate]) as lgs eqn:Hlgs.
  intros [= <-]. apply runGroups_other.
  intros l grp i n Hl Hi ->. rewrite Hlgs in Hl.
  apply elem_of_map_iff in Hl as (l0 & [= _ ->] & _).
  apply list_elem_of_filter in Hi as [_ Hi]. rewrite <- Hf in Hi.
  apply list_elem_of_filter in Hi as [[_ Hne] Hin].
  apply Hne. rewrite <- Hid. f_equal. exact (indexed_unique nodes ci n ncore Hin Hci).
Qed.

Lemma runCluster_some nodes centers st cluster :
  is_Some (centers !! cl_id cluster) -> is_Some (runCluster simulate nodes centers st cluster).
Proof.
  intros [center Hc]. unfold runCluster.
  destruct (filter _ (indexed 0 nodes)); [eauto |]. rewrite Hc. eauto.
Qed.

Lemma runClusters_invariant nodes centers (cls : list SkillCluster) ncore :
  (ci, ncore) ∈ indexed 0 nodes -> n_id ncore = "CORE" ->
  (forall c, c ∈ cls -> is_Some (centers !! cl_id c)) ->
  forall st, exists st',
    fold_left (fun ost cluster => ost ≫= fun st => runCluster simulate nodes centers st cluster)
      cls (Some st) = Some st' /\ st'.2 !! ci = st.2 !! ci.
Proof.
  intros Hci Hid. induction cls as [|c cls IH]; intros Hcs st; simpl; [eauto |].
  destruct (runCluster_some nodes centers st c) as [st1 Hst1].
  { apply Hcs. apply elem_of_cons. by left. }
  rewrite Hst1. simpl.
  destruct (IH (fun c' Hc' => Hcs c' (proj2 (elem_of_cons _ _ _) (or_intror Hc'))) st1)
    as (st' & Heq & Hpos).
  exists st'. split; [exact Heq |]. rewrite Hpos.
  exact (runCluster_other _ _ _ _ _ _ Hci Hid Hst1).
Qed.

End LayoutFacts.

(** C6 (anchor fixity), as the code does it: whatever the simulations do,
    and whatever nodes the clusters hold, the layout succeeds when a CORE
    node exists; the anchor of every cluster (cluster ids distinct) is
    [(cos angle * radius * scale, sin angle * radius * scale)] with
    [scale = min(width, height) / 800], and the anchor map depends on the
    clusters and the viewport only; the node that [nodeMap.get('CORE')]
    resolves to ends at the origin; a cluster at angle 0 gets the anchor
    [(radius * scale, 0)] exactly, while one at angle [Math.PI] (with
    [radius * scale > 0]) gets an anchor on the other side, with
    [-(radius * scale) <= x < 0], but just off the x-axis:
    [0 < y < radius * scale / 10^15]. *)
Theorem layout_anchor_fixity simulate (galaxyNodes : list GalaxyNode)
    (cls : list SkillCluster) (width height : R)
    (Hcore : "CORE" ∈ map n_id galaxyNodes) (Hnd : NoDup (map cl_id cls)) :
  exists centers pos,
    layout simulate galaxyNodes cls width height = Some (centers, pos) /\
    centers = clusterCenters cls (layoutScale width height) /\
    (forall c, c ∈ cls ->
       centers !! cl_id c =
         Some (cos (cl_angle c) * cl_radius c * layoutScale width height,
               sin (cl_angle c) * cl_radius c * layoutScale width height)%R) /\
    (exists ci n, nodeIndexMap galaxyNodes !! "CORE" = Some ci /\
       galaxyNodes !! ci = Some n /\ n_id n = "CORE" /\ pos !! ci = Some (0, 0)%R) /\
    (forall c1 c2, c1 ∈ cls -> c2 ∈ cls -> cl_angle c1 = 0%R -> cl_angle c2 = MathPI ->
       centers !! cl_id c1 = Some (cl_radius c1 * layoutScale width height, 0)%R /\
       ((0 < cl_radius c2 * layoutScale width height)%R ->
        exists x y, centers !! cl_id c2 = Some (x, y) /\
          (- (cl_radius c2 * layoutScale width height) <= x < 0)%R /\
          (0 < y < cl_radius c2 * layoutScale width height / IZR (10 ^ 15))%R)).
Proof.
  destruct (nodeIndexMap_core galaxyNodes Hcore) as (ci & ncore & Hci & Hl & Hid & Hin).
  set (centers := clusterCenters cls (layoutScale width height)).
  destruct (runClusters_invariant simulate ci galaxyNodes centers cls ncore Hin Hid
              (fun c Hc => clusterCenters_has cls _ c Hc)
              (0%nat, <[ci := (0, 0)%R]> (initialPositions galaxyNodes)))
    as ([k pos] & Hfold & Hpos).
  exists centers, pos. unfold layout. rewrite Hci. fold centers. rewrite Hfold.
  split_and!; [reflexivity | reflexivity | | | ].
  - intros c Hc. by apply clusterCenters_lookup.
  - exists ci, ncore. split_and!; try done.
    simpl in Hpos. rewrite Hpos. apply lookup_insert_eq.
  - intros c1 c2 Hc1 Hc2 Ha1 Ha2. unfold centers.
    rewrite !clusterCenters_lookup by done. rewrite Ha1, Ha2, cos_0, sin_0.
    split; [f_equal; f_equal; ring |].
    intros Hk. pose proof sin_MathPI as [Hs1 Hs2]. pose proof cos_MathPI as [Hcos1 Hcos2].
    set (rs := (cl_radius c2 * layoutScale width height)%R) in *.
    exists (cos MathPI * cl_radius c2 * layoutScale width height)%R,
           (sin MathPI * cl_radius c2 * layoutScale width height)%R.
    split; [reflexivity |].
    replace (cos MathPI * cl_radius c2 * layoutScale width height)%R with (cos MathPI * rs)%R
      by (unfold rs; ring).
    replace (sin MathPI * cl_radius c2 * layoutScale width height)%R with (sin MathPI * rs)%R
      by (unfold rs; ring).
    assert (Hp : (0 < IZR (10 ^ 15))%R) by (apply IZR_lt; reflexivity).
    unfold Rdiv. split; split; nra.
Qed.

(** Two clusters, east at angle 0 and west at angle [Math.PI]. *)
Definition cluster_east : SkillCluster :=
  {| cl_id := "east"; cl_angle := 0%R; cl_radius := 300%R; cl_trackIds := [];
     cl_darkStars := [] |}.

Definition cluster_west : SkillCluster :=
  {| cl_id := "west"; cl_angle := MathPI; cl_radius := 300%R; cl_trackIds := [];
     cl_darkStars := [] |}.

(** The layout of the built galaxy on the site's cluster table, with a
    simulation that moves nothing, on a 1600 by 800 viewport; and the CORE
    node alone with the clusters east and west on an 800 by 800 one. *)
Lemma layout_anchor_fixity_witness :
  "CORE" ∈ map n_id (galaxyNodes [] [] [] []) /\ NoDup (map cl_id clusters) /\
  (exists centers pos,
    layout (fun _ _ _ _ _ => []) (galaxyNodes [] [] [] []) clusters 1600%R 800%R
      = Some (centers, pos)) /\
  (exists centers pos,
    layout (fun _ _ _ _ _ => []) [coreGalaxyNode] [cluster_east; cluster_west] 800%R 800%R
      = Some (centers, pos) /\
    exists x y, centers !! "west" = Some (x, y) /\ (0 < y < 300 / IZR (10 ^ 15))%R).
Proof.
  assert (Hcore : "CORE" ∈ map n_id (galaxyNodes [] [] [] [])).
  { apply elem_of_cons. left. reflexivity. }
  assert (Hnd : NoDup (map cl_id clusters)).
  { change (map cl_id clusters) with
      ["physics"; "math"; "cs"; "aiml"; "engineering"; "data"; "business"].
    apply (bool_decide_unpack _). vm_compute. reflexivity. }
  assert (Hcore' : "CORE" ∈ map n_id [coreGalaxyNode]).
  { apply elem_of_cons. left. reflexivity. }
  assert (Hnd' : NoDup (map cl_id [cluster_east; cluster_west])).
  { apply (bool_decide_unpack _). vm_compute. reflexivity. }
  assert (Hs : layoutScale 800 800 = 1%R).
  { unfold layoutScale. rewrite Rmin_left by lra. field. }
  split_and!; [exact Hcore | exact Hnd | |].
  - destruct (layout_anchor_fixity (fun _ _ _ _ _ => []) (galaxyNodes [] [] [] []) clusters
                1600%R 800%R Hcore Hnd) as (centers & pos & Heq & _).
    exists centers, pos. exact Heq.
  - destruct (layout_anchor_fixity (fun _ _ _ _ _ => []) [coreGalaxyNode]
                [cluster_east; cluster_west] 800%R 800%R Hcore' Hnd')
      as (centers & pos & Heq & _ & _ & _ & Hpi).
    destruct (Hpi cluster_east cluster_west) as [_ Hw];
      [apply elem_of_cons; by left
      | apply elem_of_cons; right; apply list_elem_of_singleton; reflexivity
      | reflexivity | reflexivity |].
    change (cl_radius cluster_west) with 300%R in Hw. rewrite Hs in Hw.
    destruct Hw as (x & y & Hxy & _ & Hy); [lra |].
    exists centers, pos. split; [exact Heq |]. exists x, y. split; [exact Hxy |].
    rewrite Rmult_1_r in Hy. exact Hy.
Defined.

(** C6, counterexample: on an 800 by 800 viewport the cluster at angle 0
    gets the anchor (300, 0), but the cluster at angle [Math.PI], the
    program's pi, gets an anchor whose y coordinate
    [Math.sin(Math.PI) * 300] is positive, not 0: the two anchors are not
    exactly on the x-axis. *)
Lemma layout_anchor_pi_off_axis :
  cl_angle cluster_east = 0%R /\ cl_angle cluster_west = MathPI /\
  exists centers pos,
    layout (fun _ _ _ _ _ => []) [coreGalaxyNode] [cluster_east; cluster_west] 800%R 800%R
      = Some (centers, pos) /\
    centers !! "east" = Some (300, 0)%R /\
    exists x y, centers !! "west" = Some (x, y) /\ (0 < y)%R.
Proof.
  assert (Hs : layoutScale 800 800 = 1%R).
  { unfold layoutScale. rewrite Rmin_left by lra. field. }
  assert (Hnd : NoDup (map cl_id [cluster_east; cluster_west])).
  { apply (bool_decide_unpack _). vm_compute. reflexivity. }
  split_and!; [reflexivity | reflexivity |].
  exists (clusterCenters [cluster_east; cluster_west] (layoutScale 800 800)).
  eexists. split; [reflexivity |]. split.
  - change "east" with (cl_id cluster_east).
    rewrite clusterCenters_lookup by (done || (apply elem_of_cons; by left)).
    change (cl_angle cluster_east) with 0%R. change (cl_radius cluster_east) with 300%R.
    rewrite Hs, cos_0, sin_0. f_equal. f_equal; ring.
  - change "west" with (cl_id cluster_west).
    rewrite clusterCenters_lookup
      by (done || (apply elem_of_cons; right; apply list_elem_of_singleton; reflexivity)).
    change (cl_angle cluster_west) with MathPI. change (cl_radius cluster_west) with 300%R.
    rewrite Hs. do 2 eexists. split; [reflexivity |].
    pose proof sin_MathPI as [Hs1 _]. lra.
Qed.

Lemma tagStatsMap_lookup_gen (L : list (string * Q)) :
  forall (m : gmap string Q) k v,
  fold_left (fun m t => <[t.1 := t.2]> m) L m !! k = Some v -> m !! k = Some v \/ (k, v) ∈ L.
Proof.
  induction L as [|[s c] L IH]; intros m k v H; simpl in H; [auto |].
  destruct (IH _ _ _ H) as [Hm | Hin].
  - destruct (decide (s = k)) as [<- | Hne].
    + rewrite lookup_insert_eq in Hm. injection Hm as <-. right. apply elem_of_cons. by left.
    + rewrite lookup_insert_ne in Hm by done. auto.
  - right. apply elem_of_cons. by right.
Qed.

Lemma tagStatsMap_nonneg tagStats k v :
  (forall t, t ∈ tagStats -> 0 <= t.2) -> tagStatsMap tagStats !! k = Some v -> 0 <= v.
Proof.
  intros Hnn H. destruct (tagStatsMap_lookup_gen tagStats ∅ k v H) as [He | Hin].
  - rewrite lookup_empty in He. discriminate.
  - exact (Hnn _ Hin).
Qed.

Lemma computeSolvedCount_fold_nonneg (stats : gmap string Q) (slugs : list string) :
  (forall k v, stats !! k = Some v -> 0 <= v) ->
  forall total, 0 <= total ->
  0 <= fold_left (fun total slug => total + or_zero (stats !! slug)) slugs total.
Proof.
  intros Hnn. induction slugs as [|s slugs IH]; intros total Ht; simpl; [exact Ht |].
  apply IH. destruct (stats !! s) as [v|] eqn:Hs; simpl.
  - apply (Qle_trans _ (0 + 0)); [apply Qle_refl |].
    apply Qplus_le_compat; [exact Ht | exact (Hnn _ _ Hs)].
  - rewrite Qplus_0_r. exact Ht.
Qed.

Lemma computeSolvedCount_fold_absent (stats : gmap string Q) (slugs : list string) :
  (forall slug, slug ∈ slugs -> stats !! slug = None) ->
  forall total,
  fold_left (fun total slug => total + or_zero (stats !! slug)) slugs total == total.
Proof.
  induction slugs as [|s slugs IH]; intros Hn total; simpl; [reflexivity |].
  rewrite IH.
  - rewrite (Hn s) by (apply elem_of_cons; by left). simpl. ring.
  - intros slug Hs. apply Hn. apply elem_of_cons. by right.
Qed.

Lemma tagStatsMap_absent tagStats k :
  k ∉ map fst tagStats -> tagStatsMap tagStats !! k = None.
Proof.
  intros Hk. destruct (tagStatsMap tagStats !! k) as [v|] eqn:H; [| done].
  destruct (tagStatsMap_lookup_gen tagStats ∅ k v H) as [He | Hin].
  - rewrite lookup_empty in He. discriminate.
  - exfalso. apply Hk. apply elem_of_map_iff. exists (k, v). done.
Qed.

Lemma ALGO_TOPICS_total_pos topic : topic ∈ ALGO_TOPICS -> 0 < t_estimatedTotal topic.
Proof.
  intros Ht.
  assert (Hall : forallb (fun t => negb (Qle_bool (t_estimatedTotal t) 0)) ALGO_TOPICS = true)
    by (vm_compute; reflexivity).
  rewrite forallb_forall in Hall. apply list_elem_of_In in Ht.
  specialize (Hall _ Ht). apply negb_true_iff in Hall.
  apply Qnot_le_lt. intros Hle. apply Qle_bool_iff in Hle. congruence.
Qed.

Lemma Qltb_true a b : a < b -> Qltb a b = true.
Proof.
  intros H. unfold Qltb. apply negb_true_iff.
  destruct (Qle_bool b a) eqn:E; [| done].
  apply Qle_bool_iff in E. exfalso. exact (Qlt_not_le _ _ H E).
Qed.

(** C7 (algorithm-topic mastery). For solved counts that are not negative:
    every topic of [ALGO_TOPICS] gets a node in [buildAlgorithmNodes], built
    without failure, whose mastery is [min(1, solved / estimatedTotal)] with a
    positive estimated total, hence the ratio clamped to [0, 1]; when the stats
    name none of the topic's tag slugs (in particular when the stats file
    has no [tagStats]) the solved count and the mastery are 0; and a mastery
    below 0.05 makes the node a dark ghost. *)
Theorem algo_topic_mastery (tagStats : list (string * Q))
    (Hnn : forall t, t ∈ tagStats -> 0 <= t.2) :
  forall topic, topic ∈ ALGO_TOPICS ->
  let stats := tagStatsMap tagStats in
  let node := algoTopicNode stats topic in
  let solved := computeSolvedCount stats (t_tagSlugs topic) in
  node ∈ (buildAlgorithmNodes tagStats).1 /\
  0 < t_estimatedTotal topic /\
  n_mastery node = Qmin 1 (solved / t_estimatedTotal topic) /\
  n_mastery node == Qmax 0 (Qmin 1 (solved / t_estimatedTotal topic)) /\
  0 <= n_mastery node <= 1 /\
  ((forall slug, slug ∈ t_tagSlugs topic -> slug ∉ map fst tagStats) ->
     solved == 0 /\ n_mastery node == 0) /\
  (n_mastery node < 5#100 ->
     n_starClass node = ghost /\ n_isDark node = Some true /\ n_nodeType node = GNT_dark).
Proof.
  intros topic Ht stats node solved.
  pose proof (ALGO_TOPICS_total_pos topic Ht) as Hpos.
  assert (Hs : 0 <= solved).
  { apply computeSolvedCount_fold_nonneg; [| apply Qle_refl].
    intros k v Hk. exact (tagStatsMap_nonneg tagStats k v Hnn Hk). }
  assert (Hr : 0 <= solved / t_estimatedTotal topic).
  { apply Qle_shift_div_l; [exact Hpos |]. rewrite Qmult_0_l. exact Hs. }
  assert (Hm : n_mastery node = Qmin 1 (solved / t_estimatedTotal topic)) by reflexivity.
  assert (Hb : 0 <= n_mastery node <= 1).
  { rewrite Hm. split; [apply Q.min_glb; [discriminate | exact Hr] | apply Q.le_min_l]. }
  split_and!.
  - apply elem_of_map_iff. exists topic. done.
  - exact Hpos.
  - exact Hm.
  - rewrite <- Hm. symmetry. apply Q.max_r. apply Hb.
  - apply Hb.
  - apply Hb.
  - intros Hnone.
    assert (Hz : solved == 0).
    { apply computeSolvedCount_fold_absent.
      intros slug Hslug. apply tagStatsMap_absent. exact (Hnone slug Hslug). }
    split; [exact Hz |]. rewrite Hm, Hz. unfold Qdiv. rewrite Qmult_0_l.
    apply Q.min_r. discriminate.
  - intros Hlt. unfold node, algoTopicNode. cbn zeta.
    change (Qmin 1 (computeSolvedCount stats (t_tagSlugs topic) / t_estimatedTotal topic))
      with (n_mastery node).
    unfold masteryToStarClass. rewrite (Qltb_true _ _ Hlt). simpl. split_and!; reflexivity.
Qed.

(** With no LeetCode stats at all, the topic [algo-array-hash]. *)
Lemma algo_topic_mastery_witness :
  (forall t, t ∈ ([] : list (string * Q)) -> 0 <= t.2) /\
  n_mastery (algoTopicNode (tagStatsMap []) (mkTopic "algo-array-hash" ["array"; "hash-table"] 300 L_inner []))
    < 5#100 /\
  n_starClass (algoTopicNode (tagStatsMap []) (mkTopic "algo-array-hash" ["array"; "hash-table"] 300 L_inner []))
    = ghost.
Proof.
  assert (Hnn : forall t, t ∈ ([] : list (string * Q)) -> 0 <= t.2).
  { intros t Ht. apply elem_of_nil in Ht. contradiction. }
  assert (Hin : mkTopic "algo-array-hash" ["array"; "hash-table"] 300 L_inner [] ∈ ALGO_TOPICS).
  { apply elem_of_cons. left. reflexivity. }
  assert (Hlt : n_mastery (algoTopicNode (tagStatsMap [])
                  (mkTopic "algo-array-hash" ["array"; "hash-table"] 300 L_inner [])) < 5#100).
  { vm_compute. reflexivity. }
  split_and!; [exact Hnn | exact Hlt |].
  destruct (algo_topic_mastery [] Hnn _ Hin) as (_ & _ & _ & _ & _ & _ & Hg).
  exact (proj1 (Hg Hlt)).
Defined.

(* ================================================================= *)
(** ** Experience points ([computeXP] in [skilltree.ts]) *)

(** [GRADE_XP], a JS object literal. *)
Definition GRADE_XP : gmap string Z :=
  list_to_map [("A+", 100%Z); ("A", 85%Z); ("A-", 70%Z); ("B+", 55%Z); ("B", 45%Z); ("P", 50%Z)].

(** [NODE_TYPE_XP[nt]] for a node type [nt] ([course] is no key). *)
Definition NODE_TYPE_XP (nt : NodeType) : option Z :=
  match nt with
  | NT_project => Some 50%Z
  | NT_thesis => Some 80%Z
  | NT_publication => Some 100%Z
  | NT_internship => Some 60%Z
  | NT_repo => Some 30%Z
  | NT_skill => Some 20%Z
  | NT_course => None
  end.

(** [v || d] for a number [v] that may be [undefined]. *)
Definition or_num (v : option Z) (d : Z) : Z :=
  match v with
  | Some x => if Z.eqb x 0 then d else x
  | None => d
  end.

(** [GRADE_XP[g] || 50]: a number, or [None] when the lookup hits an
    inherited member, which is truthy and not a number. *)
Definition gradeXP (g : string) : option Z :=
  match GRADE_XP !! g with
  | Some v => Some (or_num (Some v) 50)
  | None => if bool_decide (g ∈ objectPrototypeKeys) then None else Some 50%Z
  end.

(** [NODE_TYPE_XP[p.nodeType || 'project'] || 30]. *)
Definition projectXP (p : ProjectNode) : Z :=
  or_num (NODE_TYPE_XP (default NT_project (p_nodeType p))) 30.

(** [RANK_TABLE]. *)
Definition RANK_TABLE : list (Z * string) :=
  [(0%Z, "Stargazer"); (3%Z, "Nebula Scout"); (5%Z, "Stellar Cartographer");
   (8%Z, "Constellation Architect"); (12%Z, "Galaxy Navigator"); (16%Z, "Cosmic Voyager");
   (20%Z, "Supernova"); (25%Z, "Quasar"); (30%Z, "Event Horizon")].

Record XPResult := {
  xp_xp : Z;
  xp_level : Z;
  xp_rank : string;
  xp_nextLevelXP : Z;
  xp_currentLevelXP : Z;
}.

(** [xp += ...] over the courses: once a non-number is added, [xp] is a
    string for good ([None]). *)
Definition coursesXP (courses : list CourseNode) (xp : option Z) : option Z :=
  fold_left (fun acc c =>
      match acc, gradeXP (c_grade c) with
      | Some x, Some v => Some (x + v)%Z
      | _, _ => None
      end) courses xp.

(** [xp += ...] over the projects. *)
Definition projectsXP (projectNodes : list ProjectNode) (xp : option Z) : option Z :=
  fold_left (fun acc p => option_map (fun x => x + projectXP p)%Z acc) projectNodes xp.

(** [Math.floor(Math.sqrt(xp / 100))]. *)
Definition xpLevel (xp : Z) : Z := Int_part (sqrt (IZR xp / 100)).

(** [let rank = RANK_TABLE[0][1]; for ([minLevel, title] of RANK_TABLE)
    if (level >= minLevel) rank = title]. *)
Definition rankOf (level : Z) : string :=
  fold_left (fun rank (row : Z * string) => if Z.leb row.1 level then row.2 else rank)
    RANK_TABLE (match RANK_TABLE with (_, t) :: _ => t | [] => "" end).

(** [computeXP(courses, projectNodes)]; [None] when [xp] has stopped being
    a number. *)
Definition computeXP (courses : list CourseNode) (projectNodes : list ProjectNode)
    : option XPResult :=
  match projectsXP projectNodes (coursesXP courses (Some 0%Z)) with
  | None => None
  | Some xp =>
    let level := xpLevel xp in
    Some {| xp_xp := xp; xp_level := level; xp_rank := rankOf level;
            xp_nextLevelXP := ((level + 1) * (level + 1) * 100)%Z;
            xp_currentLevelXP := (level * level * 100)%Z |}
  end.

(** The outliner's XP bar: [progress = (xp - currentLevelXP) / (nextLevelXP -
    currentLevelXP)] and the width [Math.min(100, progress * 100)] percent. *)
Definition xpBarWidth (r : XPResult) : Q :=
  Qmin 100 ((inject_Z (xp_xp r - xp_currentLevelXP r) /
             inject_Z (xp_nextLevelXP r - xp_currentLevelXP r)) * 100).

Lemma xpLevel_sqrt x : (0 <= x)%Z -> xpLevel x = Z.sqrt (x / 100).
Proof.
  intros Hx. unfold xpLevel, Int_part.
  set (k := Z.sqrt (x / 100)).
  assert (Hq : (0 <= x / 100)%Z) by (apply Z.div_pos; lia).
  destruct (Z.sqrt_spec (x / 100) Hq) as [Hk1 Hk2]. fold k in Hk1, Hk2.
  assert (Hk0 : (0 <= k)%Z) by (apply Z.sqrt_nonneg).
  pose proof (Z.mul_div_le x 100 ltac:(lia)) as Hd1.
  pose proof (Z.mod_pos_bound x 100 ltac:(lia)) as Hd2.
  pose proof (Z.div_mod x 100 ltac:(lia)) as Hd3.
  assert (Hlo : (100 * (k * k) <= x)%Z) by nia.
  assert (Hhi : (x < 100 * ((k + 1) * (k + 1)))%Z) by nia.
  apply IZR_le in Hlo. apply IZR_lt in Hhi. rewrite mult_IZR in Hlo, Hhi.
  assert (HkR : (0 <= IZR k)%R) by (apply IZR_le; exact Hk0).
  assert (Hle : (IZR k <= sqrt (IZR x / 100))%R).
  { rewrite <- (sqrt_square (IZR k) HkR). apply sqrt_le_1_alt.
    rewrite <- mult_IZR. lra. }
  assert (Hlt : (sqrt (IZR x / 100) < IZR (k + 1))%R).
  { assert (Hk1R : (0 <= IZR (k + 1))%R) by (apply IZR_le; lia).
    rewrite <- (sqrt_square (IZR (k + 1)) Hk1R). apply sqrt_lt_1_alt.
    split; [apply IZR_le in Hx; lra |]. rewrite <- mult_IZR. lra. }
  rewrite <- (tech_up _ (k + 1) Hlt); [lia |].
  rewrite plus_IZR. lra.
Qed.

Lemma GRADE_XP_range g v : GRADE_XP !! g = Some v -> (45 <= v <= 100)%Z.
Proof.
  intros Hg.
  assert (Hall : map_Forall (fun _ v => (45 <= v <= 100)%Z) GRADE_XP).
  { apply (bool_decide_unpack _). vm_compute. reflexivity. }
  exact (Hall g v Hg).
Qed.

Lemma GRADE_XP_not_proto g : g ∈ objectPrototypeKeys -> GRADE_XP !! g = None.
Proof.
  intros Hg.
  assert (Hall : Forall (fun k => GRADE_XP !! k = None) objectPrototypeKeys).
  { apply (bool_decide_unpack _). vm_compute. reflexivity. }
  rewrite Forall_forall in Hall. exact (Hall g Hg).
Qed.

Lemma gradeXP_range g v : gradeXP g = Some v -> (45 <= v <= 100)%Z.
Proof.
  unfold gradeXP. destruct (GRADE_XP !! g) as [w|] eqn:Hg.
  - intros [= <-]. pose proof (GRADE_XP_range g w Hg). simpl.
    destruct (Z.eqb_spec w 0); lia.
  - case_bool_decide; [discriminate | intros [= <-]; lia].
Qed.

Lemma gradeXP_None g : gradeXP g = None <-> g ∈ objectPrototypeKeys.
Proof.
  unfold gradeXP. split.
  - destruct (GRADE_XP !! g); [discriminate |]. case_bool_decide; [done | discriminate].
  - intros Hg. rewrite (GRADE_XP_not_proto g Hg). by rewrite bool_decide_true.
Qed.

Lemma projectXP_range p : (20 <= projectXP p <= 100)%Z.
Proof. unfold projectXP. destruct (default NT_project (p_nodeType p)); simpl; lia. Qed.

Lemma coursesXP_None cs : coursesXP cs None = None.
Proof. unfold coursesXP. induction cs as [|c cs IH]; [done |]. exact IH. Qed.

Lemma projectsXP_None ps : projectsXP ps None = None.
Proof. unfold projectsXP. induction ps as [|p ps IH]; [done |]. exact IH. Qed.

Lemma coursesXP_shift cs :
  forall a b, coursesXP cs (Some (a + b)%Z) = option_map (Z.add a) (coursesXP cs (Some b)).
Proof.
  induction cs as [|c cs IH]; intros a b; [done |].
  unfold coursesXP. simpl. destruct (gradeXP (c_grade c)) as [v|].
  - rewrite <- Z.add_assoc. exact (IH a (b + v)%Z).
  - change (coursesXP cs None = option_map (Z.add a) (coursesXP cs None)).
    by rewrite coursesXP_None.
Qed.

Lemma coursesXP_Some cs :
  forall x y : Z, coursesXP cs (Some x) = Some y ->
  (x + 45 * Z.of_nat (length cs) <= y <= x + 100 * Z.of_nat (length cs))%Z /\
  coursesXP cs (Some 0%Z) = Some (y - x)%Z.
Proof.
  induction cs as [|c cs IH]; intros x y H.
  - injection H as <-. simpl. split; [lia | f_equal; lia].
  - unfold coursesXP in H |- *. simpl in H |- *.
    destruct (gradeXP (c_grade c)) as [v|] eqn:Hv.
    + pose proof (gradeXP_range _ _ Hv).
      destruct (IH _ _ H) as [Hb He]. simpl length.
      split; [lia |].
      change (coursesXP cs (Some (0 + v)%Z) = Some (y - x)%Z).
      rewrite Z.add_0_l. fold (coursesXP cs (Some 0%Z)) in He.
      replace v with (v + 0)%Z by lia. rewrite coursesXP_shift, He. simpl. f_equal. lia.
    + change (coursesXP cs None = Some y) in H. rewrite coursesXP_None in H. discriminate.
Qed.

Lemma projectsXP_Some ps :
  forall x : Z, exists y : Z, projectsXP ps (Some x) = Some y /\
  (x + 20 * Z.of_nat (length ps) <= y <= x + 100 * Z.of_nat (length ps))%Z /\
  projectsXP ps (Some 0%Z) = Some (y - x)%Z.
Proof.
  induction ps as [|p ps IH]; intros x.
  - exists x. simpl. split_and!; [done | lia | lia | f_equal; lia].
  - destruct (IH (x + projectXP p)%Z) as (y & Hy & Hb & He).
    destruct (IH (0 + projectXP p)%Z) as (y0 & Hy0 & _ & He0).
    pose proof (projectXP_range p).
    exists y. unfold projectsXP in *. simpl.
    split_and!; [exact Hy | simpl length; lia | simpl length; lia |].
    rewrite Hy0. rewrite He in He0. injection He0 as He0. f_equal. lia.
Qed.

Lemma coursesXP_None_iff cs :
  forall x, coursesXP cs (Some x) = None <-> exists c, c ∈ cs /\ c_grade c ∈ objectPrototypeKeys.
Proof.
  induction cs as [|c cs IH]; intros x.
  - split; [discriminate | intros (c & Hc & _); apply elem_of_nil in Hc; contradiction].
  - unfold coursesXP. simpl. destruct (gradeXP (c_grade c)) as [v|] eqn:Hv.
    + fold (coursesXP cs (Some (x + v)%Z)). rewrite IH. split.
      * intros (c' & Hc' & Hg). exists c'. split; [apply elem_of_cons; by right | done].
      * intros (c' & Hc' & Hg). apply elem_of_cons in Hc' as [-> | Hc'].
        -- apply gradeXP_None in Hg. congruence.
        -- eauto.
    + fold (coursesXP cs None). rewrite coursesXP_None. split; [| done].
      intros _. exists c. split; [apply elem_of_cons; by left | by apply gradeXP_None].
Qed.

Lemma computeXP_Some cs ps r :
  computeXP cs ps = Some r <->
  exists x y, coursesXP cs (Some 0%Z) = Some x /\ projectsXP ps (Some 0%Z) = Some y /\
    r = {| xp_xp := x + y; xp_level := xpLevel (x + y); xp_rank := rankOf (xpLevel (x + y));
           xp_nextLevelXP := ((xpLevel (x + y) + 1) * (xpLevel (x + y) + 1) * 100)%Z;
           xp_currentLevelXP := (xpLevel (x + y) * xpLevel (x + y) * 100)%Z |}.
Proof.
  unfold computeXP. split.
  - destruct (coursesXP cs (Some 0%Z)) as [x|] eqn:Hx.
    + destruct (projectsXP_Some ps x) as (z & Hz & _ & Hz0). rewrite Hz.
      intros [= <-]. exists x, (z - x)%Z. split_and!; [done | done |].
      by replace (x + (z - x))%Z with z by lia.
    + rewrite projectsXP_None. discriminate.
  - intros (x & y & Hx & Hy & ->). rewrite Hx.
    destruct (projectsXP_Some ps x) as (z & Hz & _ & Hz0). rewrite Hz.
    rewrite Hy in Hz0. injection Hz0 as Hz0. by replace z with (x + y)%Z by lia.
Qed.

Lemma computeXP_xp_nonneg cs ps r : computeXP cs ps = Some r -> (0 <= xp_xp r)%Z.
Proof.
  intros H. apply computeXP_Some in H as (x & y & Hx & Hy & ->). simpl.
  destruct (coursesXP_Some cs 0 x Hx) as [Hb _].
  destruct (projectsXP_Some ps 0) as (y' & Hy' & Hb' & _). rewrite Hy in Hy'.
  injection Hy' as <-. lia.
Qed.

Lemma rankOf_spec level : (0 <= level)%Z ->
  exists i m, RANK_TABLE !! i = Some (m, rankOf level) /\ (m <= level)%Z /\
    forall j m' t', RANK_TABLE !! j = Some (m', t') -> (m' <= level)%Z -> (j <= i)%nat.
Proof.
  intros H0. unfold rankOf. simpl.
  repeat match goal with
  | |- context [Z.leb ?a level] =>
      destruct (Z.leb_spec a level); try (exfalso; lia)
  end;
  match goal with
  | |- exists i m, RANK_TABLE !! i = Some (m, ?t) /\ _ =>
      let rec find k :=
        match eval vm_compute in (RANK_TABLE !! k) with
        | Some (?m, t) => exists k, m
        | Some _ => find (S k)
        end in find 0%nat
  end;
  (split; [reflexivity | split; [lia |]]);
  intros j m' t' Hj Hm;
  (do 9 (destruct j as [|j]; [simpl in Hj; injection Hj as <- <-; lia |]));
  simpl in Hj; discriminate.
Qed.

Lemma zsqrt_div_bounds x : (0 <= x)%Z ->
  (100 * (Z.sqrt (x / 100) * Z.sqrt (x / 100)) <= x <
   100 * ((Z.sqrt (x / 100) + 1) * (Z.sqrt (x / 100) + 1)))%Z.
Proof.
  intros Hx.
  assert (Hq : (0 <= x / 100)%Z) by (apply Z.div_pos; lia).
  destruct (Z.sqrt_spec (x / 100) Hq) as [Hk1 Hk2].
  pose proof (Z.mod_pos_bound x 100 ltac:(lia)).
  pose proof (Z.div_mod x 100 ltac:(lia)).
  split; nia.
Qed.

Lemma projectsXP_app ps1 ps2 y1 y2 :
  projectsXP ps1 (Some 0%Z) = Some y1 -> projectsXP ps2 (Some 0%Z) = Some y2 ->
  projectsXP (ps1 ++ ps2) (Some 0%Z) = Some (y1 + y2)%Z.
Proof.
  intros H1 H2. unfold projectsXP. rewrite fold_left_app.
  fold (projectsXP ps1 (Some 0%Z)). rewrite H1. fold (projectsXP ps2 (Some y1)).
  destruct (projectsXP_Some ps2 y1) as (z & Hz & _ & Hz0). rewrite Hz.
  rewrite H2 in Hz0. injection Hz0 as Hz0. f_equal. lia.
Qed.

Lemma coursesXP_app cs1 cs2 x1 x2 :
  coursesXP cs1 (Some 0%Z) = Some x1 -> coursesXP cs2 (Some 0%Z) = Some x2 ->
  coursesXP (cs1 ++ cs2) (Some 0%Z) = Some (x1 + x2)%Z.
Proof.
  intros H1 H2. unfold coursesXP. rewrite fold_left_app.
  fold (coursesXP cs1 (Some 0%Z)). rewrite H1. fold (coursesXP cs2 (Some x1)).
  replace x1 with (x1 + 0)%Z by lia. rewrite coursesXP_shift, H2. simpl. f_equal. lia.
Qed.

Lemma computeXP_app cs1 ps1 cs2 ps2 r1 r2 :
  computeXP cs1 ps1 = Some r1 -> computeXP cs2 ps2 = Some r2 ->
  exists r, computeXP (cs1 ++ cs2) (ps1 ++ ps2) = Some r /\ xp_xp r = (xp_xp r1 + xp_xp r2)%Z.
Proof.
  intros H1 H2.
  apply computeXP_Some in H1 as (x1 & y1 & Hx1 & Hy1 & ->).
  apply computeXP_Some in H2 as (x2 & y2 & Hx2 & Hy2 & ->).
  eexists. split.
  - apply computeXP_Some. exists (x1 + x2)%Z, (y1 + y2)%Z.
    split_and!; [exact (coursesXP_app _ _ _ _ Hx1 Hx2) | exact (projectsXP_app _ _ _ _ Hy1 Hy2) |].
    reflexivity.
  - simpl. lia.
Qed.

(** XP adds up over courses and projects: the XP of two record lists put
    together is the sum of their XP, each course brings 45 to 100 points
    ([GRADE_XP] or 50) and each project 20 to 100 ([NODE_TYPE_XP] or 30). *)
Theorem computeXP_additive cs1 ps1 cs2 ps2 r1 r2
    (H1 : computeXP cs1 ps1 = Some r1) (H2 : computeXP cs2 ps2 = Some r2) :
  (45 * Z.of_nat (length cs1) + 20 * Z.of_nat (length ps1) <= xp_xp r1
     <= 100 * (Z.of_nat (length cs1) + Z.of_nat (length ps1)))%Z /\
  exists r, computeXP (cs1 ++ cs2) (ps1 ++ ps2) = Some r /\ xp_xp r = (xp_xp r1 + xp_xp r2)%Z.
Proof.
  split; [| exact (computeXP_app _ _ _ _ _ _ H1 H2)].
  apply computeXP_Some in H1 as (x & y & Hx & Hy & ->). simpl.
  destruct (coursesXP_Some cs1 0 x Hx) as [Hb _].
  destruct (projectsXP_Some ps1 0) as (y' & Hy' & Hb' & _). rewrite Hy in Hy'.
  injection Hy' as <-. lia.
Qed.

Lemma computeXP_None_iff cs ps :
  computeXP cs ps = None <-> exists c, c ∈ cs /\ c_grade c ∈ objectPrototypeKeys.
Proof.
  rewrite <- (coursesXP_None_iff cs 0). unfold computeXP.
  destruct (coursesXP cs (Some 0%Z)) as [x|] eqn:Hx.
  - destruct (projectsXP_Some ps x) as (z & Hz & _). rewrite Hz. split; discriminate.
  - rewrite projectsXP_None. done.
Qed.

Lemma computeXP_fields cs ps r : computeXP cs ps = Some r ->
  xp_level r = xpLevel (xp_xp r) /\ xp_rank r = rankOf (xp_level r).
Proof. intros H. apply computeXP_Some in H as (x & y & _ & _ & ->). done. Qed.

(** XP is a number exactly when no course grade is the name of a member
    every JS object inherits ([toString], [constructor], ...): such a grade
    reads a function off [GRADE_XP], and [xp +=] turns [xp] into a string.
    With no records at all the result is 0 XP, level 0, rank Stargazer. *)
Theorem computeXP_defined cs ps :
  (computeXP cs ps = None <-> exists c, c ∈ cs /\ c_grade c ∈ objectPrototypeKeys) /\
  computeXP [] [] = Some {| xp_xp := 0; xp_level := 0; xp_rank := "Stargazer";
                            xp_nextLevelXP := 100; xp_currentLevelXP := 0 |}.
Proof.
  split; [apply computeXP_None_iff |].
  unfold computeXP. simpl. rewrite xpLevel_sqrt by lia. reflexivity.
Qed.

Lemma bar_fraction a b : (0 <= a < b)%Z ->
  0 <= Qmin 100 ((inject_Z a / inject_Z b) * 100) < 100.
Proof.
  intros [Ha Hab].
  assert (Hb : 0 < inject_Z b) by (change 0 with (inject_Z 0); rewrite <- Zlt_Qlt; lia).
  assert (Hp0 : 0 <= inject_Z a / inject_Z b).
  { apply Qle_shift_div_l; [exact Hb |]. rewrite Qmult_0_l.
    change 0 with (inject_Z 0). rewrite <- Zle_Qle. lia. }
  assert (Hp1 : inject_Z a / inject_Z b < 1).
  { apply Qlt_shift_div_r; [exact Hb |]. rewrite Qmult_1_l. rewrite <- Zlt_Qlt. lia. }
  set (p := inject_Z a / inject_Z b) in *.
  assert (Hlt : p * 100 < 100).
  { apply (Qlt_le_trans _ (1 * 100)); [| apply Qle_refl].
    apply Qmult_lt_r; [reflexivity | exact Hp1]. }
  rewrite Q.min_r by (apply Qlt_le_weak; exact Hlt).
  split; [apply Qmult_le_0_compat; [exact Hp0 | discriminate] | exact Hlt].
Qed.

(** The level is [floor(sqrt(xp / 100))], so [currentLevelXP <= xp <
    nextLevelXP] always holds and the XP bar of the outliner is filled to
    a width in [[0, 100)] percent. *)
Theorem computeXP_level cs ps r (H : computeXP cs ps = Some r) :
  xp_level r = Z.sqrt (xp_xp r / 100) /\ (0 <= xp_level r)%Z /\
  (xp_currentLevelXP r <= xp_xp r < xp_nextLevelXP r)%Z /\
  0 <= xpBarWidth r < 100.
Proof.
  pose proof (computeXP_xp_nonneg _ _ _ H) as Hnn.
  apply computeXP_Some in H as (x & y & Hx & Hy & ->). simpl in *.
  rewrite xpLevel_sqrt by lia.
  pose proof (zsqrt_div_bounds (x + y) Hnn) as [Hlo Hhi].
  set (k := Z.sqrt ((x + y) / 100)) in *.
  assert (Hk : (0 <= k)%Z) by apply Z.sqrt_nonneg.
  split_and!; [reflexivity | exact Hk | lia | lia | |].
  - unfold xpBarWidth. simpl. apply bar_fraction. lia.
  - unfold xpBarWidth. simpl. apply bar_fraction. lia.
Qed.

(** The rank is the title of the last [RANK_TABLE] row whose minimum level
    the level reaches; more courses or projects never lower the XP, the
    level or the rank. *)
Theorem computeXP_rank cs ps cs' ps' r r'
    (H : computeXP cs ps = Some r) (H' : computeXP (cs ++ cs') (ps ++ ps') = Some r') :
  (exists i m, RANK_TABLE !! i = Some (m, xp_rank r) /\ (m <= xp_level r)%Z /\
     forall j m' t', RANK_TABLE !! j = Some (m', t') -> (m' <= xp_level r)%Z -> (j <= i)%nat) /\
  (xp_xp r <= xp_xp r')%Z /\ (xp_level r <= xp_level r')%Z /\
  exists i i' m m', RANK_TABLE !! i = Some (m, xp_rank r) /\
    RANK_TABLE !! i' = Some (m', xp_rank r') /\ (i <= i')%nat.
Proof.
  destruct (computeXP cs' ps') as [r2|] eqn:H2.
  2: { exfalso. apply computeXP_None_iff in H2 as (c & Hc & Hg).
       assert (Hn : computeXP (cs ++ cs') (ps ++ ps') = None).
       { apply computeXP_None_iff. exists c. split; [apply elem_of_app; by right | done]. }
       congruence. }
  destruct (computeXP_app _ _ _ _ _ _ H H2) as (r'' & Hr'' & Hxp). rewrite H' in Hr''.
  injection Hr'' as <-.
  pose proof (computeXP_xp_nonneg _ _ _ H) as Hn1.
  pose proof (computeXP_xp_nonneg _ _ _ H2) as Hn2.
  destruct (computeXP_fields _ _ _ H) as [Hl Hr].
  destruct (computeXP_fields _ _ _ H') as [Hl' Hr'].
  assert (Hlv : (xp_level r <= xp_level r')%Z).
  { rewrite Hl, Hl', !xpLevel_sqrt by lia.
    apply Z.sqrt_le_mono. apply Z.div_le_mono; lia. }
  assert (H0 : (0 <= xp_level r)%Z) by (rewrite Hl, xpLevel_sqrt by lia; apply Z.sqrt_nonneg).
  destruct (rankOf_spec (xp_level r) H0) as (i & m & Hi & Hm & Hmax).
  destruct (rankOf_spec (xp_level r') ltac:(lia)) as (i' & m' & Hi' & Hm' & Hmax').
  rewrite <- Hr in Hi. rewrite <- Hr' in Hi'.
  split_and!; [exists i, m; eauto | lia | exact Hlv |].
  exists i, i', m, m'. split_and!; [exact Hi | exact Hi' |].
  apply (Hmax' i m (xp_rank r) Hi). lia.
Qed.

(** An A+ course, then a project of default type: 100 + 50 XP. *)
Lemma computeXP_additive_witness :
  exists r1 r2, computeXP [course_C1] [] = Some r1 /\ computeXP [] [project_P1] = Some r2 /\
  (45 * 1 + 20 * 0 <= xp_xp r1 <= 100 * (1 + 0))%Z /\
  exists r, computeXP [course_C1] [project_P1] = Some r /\ xp_xp r = (xp_xp r1 + xp_xp r2)%Z.
Proof.
  do 2 eexists. split; [reflexivity |]. split; [reflexivity |].
  exact (computeXP_additive [course_C1] [] [] [project_P1] _ _ eq_refl eq_refl).
Defined.

(** The same two records: 150 XP, level 1, the bar half filled. *)
Lemma computeXP_level_witness :
  exists r, computeXP [course_C1] [project_P1] = Some r /\
  xp_level r = Z.sqrt (xp_xp r / 100) /\ (0 <= xp_level r)%Z /\
  (xp_currentLevelXP r <= xp_xp r < xp_nextLevelXP r)%Z /\ 0 <= xpBarWidth r < 100.
Proof.
  eexists. split; [reflexivity |].
  exact (computeXP_level [course_C1] [project_P1] _ eq_refl).
Defined.

(** Adding a project to one A+ course. *)
Lemma computeXP_rank_witness :
  exists r r', computeXP [course_C1] [] = Some r /\
    computeXP ([course_C1] ++ []) ([] ++ [project_P1]) = Some r' /\
  (exists i m, RANK_TABLE !! i = Some (m, xp_rank r) /\ (m <= xp_level r)%Z /\
     forall j m' t', RANK_TABLE !! j = Some (m', t') -> (m' <= xp_level r)%Z -> (j <= i)%nat) /\
  (xp_xp r <= xp_xp r')%Z /\ (xp_level r <= xp_level r')%Z /\
  exists i i' m m', RANK_TABLE !! i = Some (m, xp_rank r) /\
    RANK_TABLE !! i' = Some (m', xp_rank r') /\ (i <= i')%nat.
Proof.
  do 2 eexists. split; [reflexivity |]. split; [reflexivity |].
  exact (computeXP_rank [course_C1] [] [] [project_P1] _ _ eq_refl eq_refl).
Defined.

(* ================================================================= *)
(** ** Star classes against mastery *)

(** The visual order of the star classes, dimmest first. *)
Definition starRank (s : StarClass) : nat :=
  match s with ghost => 0 | brown_dwarf => 1 | main_sequence => 2 | hypergiant => 3 end.

Lemma Qltb_spec a b : Qltb a b = true <-> a < b.
Proof.
  unfold Qltb. rewrite negb_true_iff. split.
  - intros H. apply Qnot_le_lt. intros Hle. apply Qle_bool_iff in Hle. congruence.
  - intros H. destruct (Qle_bool b a) eqn:E; [| done].
    apply Qle_bool_iff in E. exfalso. exact (Qlt_not_le _ _ H E).
Qed.

Lemma Qltb_false a b : Qltb a b = false <-> b <= a.
Proof.
  split.
  - intros H. apply Qnot_lt_le. intros Hlt. apply Qltb_spec in Hlt. congruence.
  - intros H. destruct (Qltb a b) eqn:E; [| done].
    apply Qltb_spec in E. exfalso. exact (Qlt_not_le _ _ E H).
Qed.

(** For a node whose class comes from its grade (not dark, thesis or
    publication), a non-empty grade with at least the mastery of another
    never gets a dimmer star class. A missing or empty grade breaks the
    order: both count as mastery 0.5 but are drawn main-sequence, above a B+
    (mastery 0.55, brown dwarf). *)
Theorem gradeToStarClass_monotone :
  (forall nt g1 g2, nt <> GNT_dark -> nt <> GNT NT_thesis -> nt <> GNT NT_publication ->
     g1 <> "" -> g2 <> "" ->
     gradeToMastery (Some g1) <= gradeToMastery (Some g2) ->
     (starRank (gradeToStarClass (Some g1) nt) <= starRank (gradeToStarClass (Some g2) nt))%nat) /\
  (forall nt g, nt <> GNT_dark -> nt <> GNT NT_thesis -> nt <> GNT NT_publication ->
     g = None \/ g = Some "" ->
     gradeToMastery g = 1#2 /\
     gradeToMastery g < gradeToMastery (Some "B+") /\
     gradeToStarClass g nt = main_sequence /\
     gradeToStarClass (Some "B+") nt = brown_dwarf /\
     (starRank (gradeToStarClass (Some "B+") nt) < starRank (gradeToStarClass g nt))%nat).
Proof.
  split.
  - intros nt g1 g2 Hd Ht Hp Hg1 Hg2 Hle.
    assert (Hcls : forall g, gradeToStarClass (Some g) nt = gradeToStarClass (Some g) (GNT NT_course)).
    { intros g. destruct nt as [[]| |]; try congruence; reflexivity. }
    rewrite !Hcls. clear Hcls Hd Ht Hp.
    unfold gradeToMastery, gradeToStarClass in *.
    repeat case_bool_decide; subst; try congruence; simpl; try lia;
      unfold Qle in Hle; simpl in Hle; lia.
  - intros nt g Hd Ht Hp Hg.
    destruct Hg as [-> | ->]; destruct nt as [[]| |]; try congruence;
      split_and!; try reflexivity; simpl; lia.
Qed.

(** Whatever the stats, a topic that has solved at least as many problems
    as under other stats has at least the same mastery, brightness, radius
    and star class. *)
Theorem algoTopicNode_monotone stats1 stats2 topic
    (Ht : topic ∈ ALGO_TOPICS)
    (Hs : computeSolvedCount stats1 (t_tagSlugs topic) <= computeSolvedCount stats2 (t_tagSlugs topic)) :
  n_mastery (algoTopicNode stats1 topic) <= n_mastery (algoTopicNode stats2 topic) /\
  n_brightness (algoTopicNode stats1 topic) <= n_brightness (algoTopicNode stats2 topic) /\
  n_radius (algoTopicNode stats1 topic) <= n_radius (algoTopicNode stats2 topic) /\
  (starRank (n_starClass (algoTopicNode stats1 topic))
     <= starRank (n_starClass (algoTopicNode stats2 topic)))%nat.
Proof.
  pose proof (ALGO_TOPICS_total_pos topic Ht) as Hpos.
  unfold algoTopicNode. cbn zeta. simpl n_mastery. simpl n_brightness. simpl n_radius. simpl n_starClass.
  set (s1 := computeSolvedCount stats1 (t_tagSlugs topic)) in *.
  set (s2 := computeSolvedCount stats2 (t_tagSlugs topic)) in *.
  set (T := t_estimatedTotal topic) in *.
  assert (Hq : s1 / T <= s2 / T).
  { unfold Qdiv. apply Qmult_le_compat_r; [exact Hs |].
    apply Qinv_le_0_compat. apply Qlt_le_weak. exact Hpos. }
  assert (Hm : Qmin 1 (s1 / T) <= Qmin 1 (s2 / T)) by (apply Q.min_le_compat_l; exact Hq).
  set (m1 := Qmin 1 (s1 / T)) in *. set (m2 := Qmin 1 (s2 / T)) in *.
  assert (Hm2 : m2 <= 1) by apply Q.le_min_l.
  assert (Hcls : (starRank (masteryToStarClass m1) <= starRank (masteryToStarClass m2))%nat).
  { unfold masteryToStarClass.
    destruct (Qltb m1 (5#100)) eqn:E1; [simpl; lia |].
    destruct (Qltb m2 (5#100)) eqn:E2;
      [apply Qltb_spec in E2; apply Qltb_false in E1; exfalso; Lqa.lra |].
    destruct (Qltb m1 (3#10)) eqn:E3; destruct (Qltb m2 (3#10)) eqn:E4;
      destruct (Qltb m1 (7#10)) eqn:E5; destruct (Qltb m2 (7#10)) eqn:E6; simpl; try lia;
      repeat match goal with
      | H : Qltb _ _ = true |- _ => apply Qltb_spec in H
      | H : Qltb _ _ = false |- _ => apply Qltb_false in H
      end; exfalso; Lqa.lra. }
  split_and!.
  - exact Hm.
  - destruct (bool_decide (masteryToStarClass m1 = ghost)) eqn:D1;
      destruct (bool_decide (masteryToStarClass m2 = ghost)) eqn:D2.
    + apply Qle_refl.
    + apply bool_decide_eq_true_1 in D1.
      assert (H5 : ~ m2 < 5#100).
      { intros Hlt. apply bool_decide_eq_false_1 in D2. apply D2.
        unfold masteryToStarClass. apply Qltb_spec in Hlt. by rewrite Hlt. }
      apply Qnot_lt_le in H5. Lqa.lra.
    + apply bool_decide_eq_false_1 in D1. apply bool_decide_eq_true_1 in D2.
      exfalso. rewrite D2 in Hcls. destruct (masteryToStarClass m1); simpl in Hcls; try lia. done.
    + Lqa.lra.
  - apply Q.max_le_compat_l. apply Q.min_le_compat_l. Lqa.lra.
  - exact Hcls.
Qed.

(** A course graded B against one graded A; an ungraded course ([grade: '']). *)
Lemma gradeToStarClass_monotone_witness :
  gradeToMastery (Some "B") <= gradeToMastery (Some "A") /\
  (starRank (gradeToStarClass (Some "B") (GNT NT_course))
     <= starRank (gradeToStarClass (Some "A") (GNT NT_course)))%nat /\
  gradeToStarClass (Some "") (GNT NT_course) = main_sequence.
Proof.
  assert (Hle : gradeToMastery (Some "B") <= gradeToMastery (Some "A")).
  { apply Qle_bool_imp_le. vm_compute. reflexivity. }
  split; [exact Hle | split].
  - apply (proj1 gradeToStarClass_monotone (GNT NT_course) "B" "A");
      [discriminate | discriminate | discriminate | discriminate | discriminate | exact Hle].
  - apply (proj2 gradeToStarClass_monotone (GNT NT_course) (Some ""));
      [discriminate | discriminate | discriminate | right; reflexivity].
Defined.

(** The topic [algo-array-hash] with no stats, then with 50 array problems. *)
Lemma algoTopicNode_monotone_witness :
  let topic := mkTopic "algo-array-hash" ["array"; "hash-table"] 300 L_inner [] in
  topic ∈ ALGO_TOPICS /\
  computeSolvedCount (tagStatsMap []) (t_tagSlugs topic)
    <= computeSolvedCount (tagStatsMap [("array", 50)]) (t_tagSlugs topic) /\
  n_radius (algoTopicNode (tagStatsMap []) topic)
    <= n_radius (algoTopicNode (tagStatsMap [("array", 50)]) topic).
Proof.
  intros topic.
  assert (Hin : topic ∈ ALGO_TOPICS) by (apply elem_of_cons; left; reflexivity).
  assert (Hs : computeSolvedCount (tagStatsMap []) (t_tagSlugs topic)
                 <= computeSolvedCount (tagStatsMap [("array", 50)]) (t_tagSlugs topic)).
  { apply Qle_bool_imp_le. vm_compute. reflexivity. }
  split_and!; [exact Hin | exact Hs |].
  exact (proj1 (proj2 (proj2 (algoTopicNode_monotone _ _ topic Hin Hs)))).
Defined.

(* ================================================================= *)
(** ** Ranges of the node fields built by [buildGalaxyNodes] *)

Definition node_in_range (n : GalaxyNode) : Prop :=
  (0 <= n_mastery n <= 1) /\ (0 < n_brightness n <= 1) /\ (4 <= n_radius n <= 24).

Lemma gradeToMastery_range g : 40#100 <= gradeToMastery g <= 1.
Proof.
  unfold gradeToMastery. destruct g as [g|];
    [repeat case_bool_decide |]; split; apply Qle_bool_imp_le; reflexivity.
Qed.

Lemma nodeTypeRadius_range nt m : 0 <= m <= 1 -> nt <> GNT_core ->
  4 <= nodeTypeRadius nt m <= 14.
Proof.
  intros [H0 H1] Hc. destruct nt as [[]| |]; simpl; try congruence;
    try (split; apply Qle_bool_imp_le; reflexivity); split; Lqa.lra.
Qed.

Lemma courseGalaxyNode_range c : node_in_range (courseGalaxyNode c).
Proof.
  pose proof (gradeToMastery_range (Some (c_grade c))) as [H0 H1].
  unfold node_in_range, courseGalaxyNode. cbn zeta. cbn [n_mastery n_brightness n_radius].
  pose proof (nodeTypeRadius_range (GNT (default NT_course (c_nodeType c)))
    (gradeToMastery (Some (c_grade c))) ltac:(split; Lqa.lra) ltac:(discriminate)).
  split_and!; Lqa.lra.
Qed.

Lemma projectGalaxyNode_range p : node_in_range (projectGalaxyNode p).
Proof.
  unfold node_in_range, projectGalaxyNode. cbn zeta. cbn [n_mastery n_brightness n_radius].
  destruct (bool_decide (p_id p ∈ STAR_GATE_IDS));
    destruct (default NT_project (p_nodeType p)); simpl;
    split_and!; first [reflexivity | apply Qle_bool_imp_le; reflexivity].
Qed.

Lemma darkGalaxyNode_range cl ds : node_in_range (darkGalaxyNode cl ds).
Proof.
  unfold node_in_range; simpl; split_and!; first [reflexivity | apply Qle_bool_imp_le; reflexivity].
Qed.

Lemma coreGalaxyNode_range : node_in_range coreGalaxyNode.
Proof.
  unfold node_in_range; simpl; split_and!; first [reflexivity | apply Qle_bool_imp_le; reflexivity].
Qed.

Lemma algoTopicNode_range stats topic :
  (forall k v, stats !! k = Some v -> 0 <= v) -> topic ∈ ALGO_TOPICS ->
  node_in_range (algoTopicNode stats topic).
Proof.
  intros Hnn Ht. pose proof (ALGO_TOPICS_total_pos topic Ht) as Hpos.
  assert (Hs : 0 <= computeSolvedCount stats (t_tagSlugs topic)).
  { apply computeSolvedCount_fold_nonneg; [exact Hnn | apply Qle_refl]. }
  unfold node_in_range, algoTopicNode. cbn zeta. cbn [n_mastery n_brightness n_radius].
  set (s := computeSolvedCount stats (t_tagSlugs topic)) in *.
  set (T := t_estimatedTotal topic) in *.
  assert (Hr : 0 <= s / T).
  { apply Qle_shift_div_l; [exact Hpos |]. rewrite Qmult_0_l. exact Hs. }
  set (m := Qmin 1 (s / T)).
  assert (Hm : 0 <= m <= 1).
  { split; [apply Q.min_glb; [discriminate | exact Hr] | apply Q.le_min_l]. }
  assert (Hrad : 4 <= Qmax 4 (Qmin 16 (4 + s * (8#100))) <= 16).
  { split; [apply Q.le_max_l |].
    apply Q.max_lub; [discriminate | apply Q.le_min_l]. }
  split_and!; try Lqa.lra;
    destruct (bool_decide (masteryToStarClass m = ghost)); Lqa.lra.
Qed.

Lemma skillNode_range skills n :
  (forall s, s ∈ skills -> 0 <= sk_maturity_score s <= 100) ->
  n ∈ buildSkillNodes skills -> node_in_range n.
Proof.
  intros Hsk Hn. unfold buildSkillNodes in Hn. apply elem_of_map_iff in Hn.
  destruct Hn as [s [-> Hs]]. destruct (Hsk s Hs) as [H0 H1].
  unfold node_in_range; simpl.
  assert (Hm : 0 <= sk_maturity_score s / 100 <= 1).
  { split.
    - apply Qle_shift_div_l; [reflexivity |]. Lqa.lra.
    - apply Qle_shift_div_r; [reflexivity |]. Lqa.lra. }
  split_and!; Lqa.lra.
Qed.

(** When no tag count is negative and every skill's maturity score is in
    [0, 100], every node of the galaxy has a mastery in [0, 1], a brightness
    in (0, 1] and a radius in [4, 24]. *)
Theorem galaxyNodes_field_ranges courses projectNodes tagStats skills
    (Hnn : forall t, t ∈ tagStats -> 0 <= t.2)
    (Hsk : forall s, s ∈ skills -> 0 <= sk_maturity_score s <= 100) :
  forall n, n ∈ galaxyNodes courses projectNodes tagStats skills ->
  (0 <= n_mastery n <= 1) /\ (0 < n_brightness n <= 1) /\ (4 <= n_radius n <= 24).
Proof.
  intros n Hn. fold (node_in_range n).
  unfold galaxyNodes, buildGalaxyNodes, buildAlgorithmNodes in Hn. cbn [default fst] in Hn.
  rewrite !elem_of_app, list_elem_of_singleton in Hn.
  destruct Hn as [-> | [Hn | [Hn | [Hn | [Hn | Hn]]]]].
  - apply coreGalaxyNode_range.
  - apply elem_of_map_iff in Hn. destruct Hn as [c [-> _]]. apply courseGalaxyNode_range.
  - apply elem_of_map_iff in Hn. destruct Hn as [p [-> _]]. apply projectGalaxyNode_range.
  - apply elem_of_concat_iff in Hn. destruct Hn as [l [Hn Hl]].
    apply elem_of_map_iff in Hl. destruct Hl as [cl [-> _]].
    apply elem_of_map_iff in Hn. destruct Hn as [ds [-> _]]. apply darkGalaxyNode_range.
  - apply elem_of_map_iff in Hn. destruct Hn as [topic [-> Ht]].
    apply algoTopicNode_range; [| exact Ht].
    intros k v Hk. exact (tagStatsMap_nonneg tagStats k v Hnn Hk).
  - exact (skillNode_range skills n Hsk Hn).
Qed.

Definition skill_python : SkillRegistryEntry :=
  {| sk_id := "python"; sk_name := "Python"; sk_maturity_score := 80;
     sk_maturity_level := "mature" |}.

(** The course [C1], the project [P1], 50 solved array problems and one
    skill of maturity 80. *)
Lemma galaxyNodes_field_ranges_witness :
  (forall t, t ∈ [("array", 50)] -> 0 <= t.2) /\
  (forall s, s ∈ [skill_python] -> 0 <= sk_maturity_score s <= 100) /\
  (forall n, n ∈ galaxyNodes [course_C1] [project_P1] [("array", 50)] [skill_python] ->
     (0 <= n_mastery n <= 1) /\ (0 < n_brightness n <= 1) /\ (4 <= n_radius n <= 24)).
Proof.
  assert (Hnn : forall t, t ∈ [("array", 50)] -> 0 <= t.2).
  { intros t Ht. apply list_elem_of_singleton in Ht. subst t. simpl.
    apply Qle_bool_imp_le. reflexivity. }
  assert (Hsk : forall s, s ∈ [skill_python] -> 0 <= sk_maturity_score s <= 100).
  { intros s Hs. apply list_elem_of_singleton in Hs. subst s. simpl.
    split; apply Qle_bool_imp_le; reflexivity. }
  split_and!; [exact Hnn | exact Hsk |].
  exact (galaxyNodes_field_ranges [course_C1] [project_P1] _ _ Hnn Hsk).
Defined.

(* ================================================================= *)
(** ** Cluster ids of the built nodes *)

Lemma trackToCluster_known k v : trackToCluster !! k = Some v -> v ∈ map cl_id clusters.
Proof.
  assert (H : map_Forall (fun _ v => v ∈ map cl_id clusters) trackToCluster)
    by (apply (bool_decide_unpack _); vm_compute; reflexivity).
  intros Hk. exact (H k v Hk).
Qed.

Lemma or_str_cases a b : or_str a b = b \/ a = Some (or_str a b).
Proof.
  destruct a as [v|]; simpl; [| by left].
  case_bool_decide; [by left | by right].
Qed.

Lemma in_cluster_ids (c : string) :
  c ∈ map cl_id clusters -> c ∈ "core" :: map cl_id clusters /\ c <> "core".
Proof.
  intros Hc. split; [by apply elem_of_cons; right |].
  intros ->. revert Hc. apply (bool_decide_unpack _). vm_compute. reflexivity.
Qed.

(** Every node of the galaxy has as [clusterId] the string ["core"] or the
    id of one of the clusters of [clusters], so the per-cluster layout sees
    it, and the string is ["core"] exactly for the node of type [core]; the
    one exception is a course whose id names an [Object.prototype] member,
    whose [clusterId] is that inherited member and no string. *)
Theorem galaxyNodes_cluster_known courses projectNodes tagStats skills :
  forall n, n ∈ galaxyNodes courses projectNodes tagStats skills ->
  (exists cid, n_clusterId n = cid_str cid /\ cid ∈ "core" :: map cl_id clusters /\
     (cid = "core" <-> n_nodeType n = GNT_core)) \/
  (n_clusterId n = cid_proto (n_id n) /\ n_id n ∈ objectPrototypeKeys /\
     exists c, c ∈ courses /\ n = courseGalaxyNode c).
Proof.
  assert (Hk : forall c, c ∈ map cl_id clusters -> forall nt : NodeType,
    c ∈ "core" :: map cl_id clusters /\ (c = "core" <-> GNT nt = GNT_core)).
  { intros c Hc nt. destruct (in_cluster_ids c Hc) as [H1 H2]. split; [exact H1 |].
    split; [intros E; contradiction | discriminate]. }
  assert (Hcs : "cs" ∈ map cl_id clusters)
    by (apply (bool_decide_unpack _); vm_compute; reflexivity).
  intros n Hn.
  unfold galaxyNodes, buildGalaxyNodes, buildAlgorithmNodes in Hn. cbn [default fst] in Hn.
  rewrite !elem_of_app, list_elem_of_singleton in Hn.
  destruct Hn as [-> | [Hn | [Hn | [Hn | [Hn | Hn]]]]].
  - left. exists "core". simpl. split_and!; [done | by apply elem_of_cons; left | done].
  - apply elem_of_map_iff in Hn. destruct Hn as [c [-> Hc]].
    assert (Hid : n_clusterId (courseGalaxyNode c) = courseClusterId c) by reflexivity.
    assert (Hnt : n_nodeType (courseGalaxyNode c) = GNT (default NT_course (c_nodeType c)))
      by reflexivity.
    assert (Hi : n_id (courseGalaxyNode c) = c_id c) by reflexivity.
    rewrite Hid, Hnt, Hi. unfold courseClusterId, courseClusterOverride.
    destruct (courseClusterOverrides !! c_id c) as [v|] eqn:Ho.
    + left. exists v. pose proof (courseClusterOverrides_nonempty _ _ Ho) as Hv.
      cbn [or_cid]. rewrite bool_decide_false by exact Hv. split; [reflexivity |].
      apply Hk. unfold courseClusterOverrides in Ho. rewrite lookup_singleton in Ho.
      case_decide; [| discriminate]. injection Ho as <-.
      apply (bool_decide_unpack _). vm_compute. reflexivity.
    + case_bool_decide as Hp.
      * right. split_and!; [reflexivity | exact Hp | exists c; split; [exact Hc | reflexivity]].
      * left. cbn [or_cid]. exists (or_str (trackToCluster !! c_track c) "cs").
        split; [reflexivity |]. apply Hk.
        destruct (or_str_cases (trackToCluster !! c_track c) "cs") as [E' | E'];
          [rewrite E'; exact Hcs | exact (trackToCluster_known _ _ E')].
  - apply elem_of_map_iff in Hn. destruct Hn as [p [-> _]].
    unfold projectGalaxyNode. cbn zeta. cbn [n_clusterId n_nodeType].
    left. eexists. split; [reflexivity |]. apply Hk.
    destruct (or_str_cases (trackToCluster !! or_str (p_track p) "ml") "aiml") as [E | E];
      [rewrite E | exact (trackToCluster_known _ _ E)].
    apply (bool_decide_unpack _). vm_compute. reflexivity.
  - apply elem_of_concat_iff in Hn. destruct Hn as [l [Hn Hl]].
    apply elem_of_map_iff in Hl. destruct Hl as [cl [-> Hcl]].
    apply elem_of_map_iff in Hn. destruct Hn as [ds [-> _]].
    left. exists (cl_id cl). simpl. split; [reflexivity |].
    destruct (in_cluster_ids (cl_id cl)) as [H1 H2].
    { apply elem_of_map_iff. eauto. }
    split; [exact H1 | split; [intros E; contradiction | discriminate]].
  - apply elem_of_map_iff in Hn. destruct Hn as [topic [-> _]].
    unfold algoTopicNode. cbn zeta. cbn [n_clusterId n_nodeType].
    left. exists "cs". split; [reflexivity |].
    destruct (in_cluster_ids "cs" Hcs) as [H1 H2].
    split; [exact H1 | split; [intros E; contradiction |]].
    case_bool_decide; discriminate.
  - unfold buildSkillNodes in Hn. apply elem_of_map_iff in Hn. destruct Hn as [s [-> _]].
    left. eexists. split; [reflexivity |].
    simpl. apply Hk. apply (bool_decide_unpack _). vm_compute. reflexivity.
Qed.

(** The course [C1] in the galaxy with the project [P1]; the course
    [toString] on its own. *)
Lemma galaxyNodes_cluster_known_witness :
  courseGalaxyNode course_C1 ∈ galaxyNodes [course_C1] [project_P1] [] [] /\
  courseGalaxyNode course_toString ∈ galaxyNodes [course_toString] [] [] [] /\
  (exists cid, n_clusterId (courseGalaxyNode course_C1) = cid_str cid /\
     cid ∈ "core" :: map cl_id clusters /\
     (cid = "core" <-> n_nodeType (courseGalaxyNode course_C1) = GNT_core)) /\
  n_clusterId (courseGalaxyNode course_toString) = cid_proto "toString".
Proof.
  assert (Hin : courseGalaxyNode course_C1 ∈ galaxyNodes [course_C1] [project_P1] [] []).
  { apply in_buildGalaxyNodes_course. apply list_elem_of_singleton. reflexivity. }
  assert (Hin' : courseGalaxyNode course_toString ∈ galaxyNodes [course_toString] [] [] []).
  { apply in_buildGalaxyNodes_course. apply list_elem_of_singleton. reflexivity. }
  split_and!; [exact Hin | exact Hin' | |].
  - destruct (galaxyNodes_cluster_known [course_C1] [project_P1] [] [] _ Hin)
      as [Hl | (_ & Hp & _)]; [exact Hl |].
    exfalso. revert Hp. apply (bool_decide_unpack _). vm_compute. reflexivity.
  - destruct (galaxyNodes_cluster_known [course_toString] [] [] [] _ Hin')
      as [(cid & Hc & _) | (Hc & _)]; [| exact Hc].
    exfalso. revert Hc. vm_compute. discriminate.
Defined.

(* ================================================================= *)
(** ** Star gates *)

Lemma assignLayer_stargate t id : id ∈ STAR_GATE_IDS -> assignLayer (GNT t) id = L_stargate.
Proof. intros H. simpl. by rewrite bool_decide_true. Qed.

(** Only a project whose id is in [STAR_GATE_IDS] is marked as a star
    gate, and such a node sits in the star-gate layer with radius 18 and
    class hypergiant; every listed project with such an id is marked. A
    course with such an id is put in the star-gate layer but never marked. *)
Theorem galaxyNodes_stargate courses projectNodes tagStats skills :
  (forall n, n ∈ galaxyNodes courses projectNodes tagStats skills ->
     n_isStarGate n = Some true ->
     n_id n ∈ STAR_GATE_IDS /\ n_layer n = L_stargate /\ n_radius n = 18 /\
     n_starClass n = hypergiant) /\
  (forall n, n ∈ galaxyNodes courses projectNodes tagStats skills ->
     n_isStarGate n <> Some false) /\
  (forall p, p ∈ projectNodes -> p_id p ∈ STAR_GATE_IDS ->
     projectGalaxyNode p ∈ galaxyNodes courses projectNodes tagStats skills /\
     n_isStarGate (projectGalaxyNode p) = Some true) /\
  (forall c, c ∈ courses -> c_id c ∈ STAR_GATE_IDS ->
     courseGalaxyNode c ∈ galaxyNodes courses projectNodes tagStats skills /\
     n_layer (courseGalaxyNode c) = L_stargate /\ n_isStarGate (courseGalaxyNode c) = None).
Proof.
  assert (Hcases : forall n, n ∈ galaxyNodes courses projectNodes tagStats skills ->
    n_isStarGate n = None \/ exists p, n = projectGalaxyNode p).
  { intros n Hn.
    unfold galaxyNodes, buildGalaxyNodes, buildAlgorithmNodes in Hn. cbn [default fst] in Hn.
    rewrite !elem_of_app, list_elem_of_singleton in Hn.
    destruct Hn as [-> | [Hn | [Hn | [Hn | [Hn | Hn]]]]].
    - by left.
    - apply elem_of_map_iff in Hn. destruct Hn as [c [-> _]]. by left.
    - apply elem_of_map_iff in Hn. destruct Hn as [p [-> _]]. right. by exists p.
    - apply elem_of_concat_iff in Hn. destruct Hn as [l [Hn Hl]].
      apply elem_of_map_iff in Hl. destruct Hl as [cl [-> _]].
      apply elem_of_map_iff in Hn. destruct Hn as [ds [-> _]]. by left.
    - apply elem_of_map_iff in Hn. destruct Hn as [topic [-> _]]. by left.
    - unfold buildSkillNodes in Hn. apply elem_of_map_iff in Hn.
      destruct Hn as [s [-> _]]. by left. }
  split_and!.
  - intros n Hn Hsg. destruct (Hcases n Hn) as [E | [p ->]]; [congruence |].
    unfold projectGalaxyNode in *. cbn zeta in *. cbn [n_isStarGate] in Hsg.
    case_bool_decide as Hid; [| discriminate].
    cbn [n_id n_layer n_radius n_starClass]. split_and!; try done.
    by apply assignLayer_stargate.
  - intros n Hn. destruct (Hcases n Hn) as [E | [p ->]]; [congruence |].
    unfold projectGalaxyNode. cbn zeta. cbn [n_isStarGate].
    case_bool_decide; discriminate.
  - intros p Hp Hid. split.
    + unfold galaxyNodes, buildGalaxyNodes.
      apply elem_of_app; right. apply elem_of_app; right. apply elem_of_app; left.
      apply elem_of_map_iff. eauto.
    + unfold projectGalaxyNode. cbn zeta. cbn [n_isStarGate]. by rewrite bool_decide_true.
  - intros c Hc Hid. split_and!.
    + by apply in_buildGalaxyNodes_course.
    + unfold courseGalaxyNode. cbn zeta. cbn [n_layer]. by apply assignLayer_stargate.
    + reflexivity.
Qed.

Definition project_thesis : ProjectNode :=
  {| p_id := "thesis-phd"; p_name := "PhD Thesis"; p_relatedCourses := [];
     p_track := None; p_nodeType := Some NT_thesis |}.

(** The thesis project listed alone. *)
Lemma galaxyNodes_stargate_witness :
  project_thesis ∈ [project_thesis] /\ p_id project_thesis ∈ STAR_GATE_IDS /\
  n_isStarGate (projectGalaxyNode project_thesis) = Some true /\
  n_radius (projectGalaxyNode project_thesis) = 18.
Proof.
  assert (Hp : project_thesis ∈ [project_thesis]) by apply list_elem_of_singleton, eq_refl.
  assert (Hid : p_id project_thesis ∈ STAR_GATE_IDS)
    by (apply (bool_decide_unpack _); vm_compute; reflexivity).
  destruct (galaxyNodes_stargate [] [project_thesis] [] []) as (H1 & _ & H3 & _).
  destruct (H3 project_thesis Hp Hid) as [Hin Hsg].
  split_and!; [exact Hp | exact Hid | exact Hsg |].
  exact (proj1 (proj2 (proj2 (H1 _ Hin Hsg)))).
Defined.

(* ================================================================= *)
(** ** The prerequisite edges between algorithm topics *)

#[global] Instance EdgeType_eq_dec : EqDecision EdgeType.
Proof. solve_decision. Defined.

(** A prerequisite edge from a topic of [ALGO_TOPICS] to a later one
    (positions of the first topic with each id). *)
Definition algo_edge_forward (e : ConstellationEdge) : bool :=
  match list_find (fun t => t_id t = e_source e) ALGO_TOPICS,
        list_find (fun t => t_id t = e_target e) ALGO_TOPICS with
  | Some (i, _), Some (j, _) => bool_decide (e_type e = prerequisite) && Nat.ltb i j
  | _, _ => false
  end.

Lemma algoEdges_forward_all :
  forallb algo_edge_forward (concat (map algoTopicEdges ALGO_TOPICS)) = true.
Proof. vm_compute. reflexivity. Qed.

Lemma algoTopicNode_in_galaxy courses projectNodes tagStats skills s :
  s ∈ ALGO_TOPICS ->
  t_id s ∈ map n_id (galaxyNodes courses projectNodes tagStats skills).
Proof.
  intros Hs. apply elem_of_map_iff. exists (algoTopicNode (tagStatsMap tagStats) s).
  split; [reflexivity |].
  unfold galaxyNodes, buildGalaxyNodes, buildAlgorithmNodes. cbn [default fst].
  apply elem_of_app; right. apply elem_of_app; right. apply elem_of_app; right.
  apply elem_of_app; right. apply elem_of_app; left.
  apply elem_of_map_iff. eauto.
Qed.

(** Every edge of [buildAlgorithmNodes] is a prerequisite edge from a topic
    listed earlier in [ALGO_TOPICS] to one listed later, so the topic
    prerequisites form no cycle; and both its ends are topic nodes, so the
    view's endpoint filter keeps every algorithm edge, whatever the courses,
    projects, stats and skills. *)
Theorem algoEdges_forward courses projectNodes tagStats skills :
  forall e, e ∈ algoEdges tagStats ->
  e_type e = prerequisite /\
  (exists i j s t, ALGO_TOPICS !! i = Some s /\ ALGO_TOPICS !! j = Some t /\
     e_source e = t_id s /\ e_target e = t_id t /\ (i < j)%nat) /\
  e ∈ validEdges (mkNodeMap (galaxyNodes courses projectNodes tagStats skills))
        (galaxyEdges courses projectNodes tagStats).
Proof.
  intros e He. unfold algoEdges, buildAlgorithmNodes in He. cbn [snd] in He.
  pose proof algoEdges_forward_all as Hall. rewrite forallb_forall in Hall.
  apply list_elem_of_In in He as He'. specialize (Hall e He').
  unfold algo_edge_forward in Hall.
  destruct (list_find (fun t => t_id t = e_source e) ALGO_TOPICS) as [[i s]|] eqn:Fi;
    [| discriminate].
  destruct (list_find (fun t => t_id t = e_target e) ALGO_TOPICS) as [[j t]|] eqn:Fj;
    [| discriminate].
  apply andb_true_iff in Hall as [Hty Hlt].
  apply bool_decide_eq_true_1 in Hty. apply Nat.ltb_lt in Hlt.
  apply list_find_Some in Fi as (Hi & Hsi & _).
  apply list_find_Some in Fj as (Hj & Htj & _).
  assert (Hs : s ∈ ALGO_TOPICS) by (eapply list_elem_of_lookup_2; exact Hi).
  assert (Ht : t ∈ ALGO_TOPICS) by (eapply list_elem_of_lookup_2; exact Hj).
  split_and!; [exact Hty | exists i, j, s, t; split_and!; done |].
  unfold validEdges. apply list_elem_of_filter. split; [split |].
  - apply mkNodeMap_has. rewrite <- Hsi. by apply algoTopicNode_in_galaxy.
  - apply mkNodeMap_has. rewrite <- Htj. by apply algoTopicNode_in_galaxy.
  - unfold galaxyEdges, buildEdges, buildAlgorithmNodes. cbn [default snd].
    apply elem_of_app; right. apply elem_of_app; right. exact He.
Qed.

(** The first algorithm edge, with no stats and nothing else. *)
Lemma algoEdges_forward_witness :
  {| e_source := "algo-array-hash"; e_target := "algo-string"; e_type := prerequisite |}
    ∈ algoEdges [] /\
  {| e_source := "algo-array-hash"; e_target := "algo-string"; e_type := prerequisite |}
    ∈ validEdges (mkNodeMap (galaxyNodes [] [] [] [])) (galaxyEdges [] [] []).
Proof.
  assert (He : {| e_source := "algo-array-hash"; e_target := "algo-string";
                  e_type := prerequisite |} ∈ algoEdges []).
  { apply elem_of_cons. left. reflexivity. }
  split; [exact He |].
  exact (proj2 (proj2 (algoEdges_forward [] [] [] [] _ He))).
Defined.

(* ================================================================= *)
(** ** Full chain collection ([collectChain] and [highlightChain]) *)

(** [ChainResult]; an active edge is the pair [{source, target}]. *)
Record ChainResult := {
  cr_chain : gset string;
  cr_overclock : gset string;
  cr_activeEdges : list (string * string);
}.

(** [for (const e of edges) if (chain.has(e.source) && chain.has(e.target)) push(...)]. *)
Definition chainEdges (chain : gset string) (edges : list ConstellationEdge)
    : list ConstellationEdge :=
  filter (fun e => e_source e ∈ chain /\ e_target e ∈ chain) edges.

(** [collectChain(nodeId)] of [GalaxyInteraction.ts]: one set [chain]
    threaded through [collectPrereqChain] and then [collectDownstreamChain]. *)
Definition collectChain (nodeMap : gmap string GalaxyNode) (edges : list ConstellationEdge)
    (courses : list CourseNode) (projectNodes : list ProjectNode) (nodeId : string)
    : option ChainResult :=
  match collectPrereqChain nodeMap nodeId ∅ with
  | None => None
  | Some chain0 =>
    match collectDownstreamChain_module courses projectNodes nodeId chain0 with
    | None => None
    | Some chain =>
      Some {| cr_chain := chain;
              cr_overclock := collectUpstreamSkills nodeMap nodeId;
              cr_activeEdges := map (fun e => (e_source e, e_target e)) (chainEdges chain edges) |}
    end
  end.

(** The chain of [highlightChain(d)] in the galaxy view (the set it returns)
    and the edges it marks as active. *)
Definition highlightChain (nodeMap : gmap string GalaxyNode) (edges : list ConstellationEdge)
    (courses : list CourseNode) (projectNodes : list ProjectNode)
    (algoEdges : list ConstellationEdge) (nodeId : string)
    : option (gset string * list ConstellationEdge) :=
  match collectPrereqChain nodeMap nodeId ∅ with
  | None => None
  | Some chain0 =>
    match collectDownstreamChain_view courses projectNodes algoEdges nodeId chain0 with
    | None => None
    | Some chain => Some (chain, chainEdges chain edges)
    end
  end.

Lemma dfs_visited_start next f v x : x ∈ v -> dfs next (S f) v x = Some v.
Proof. intros Hx. simpl. by rewrite decide_True. Qed.

(** The prerequisite chain from an empty set is the upstream closure. *)
Lemma collectPrereqChain_closure nodeMap nodeId :
  exists r, collectPrereqChain nodeMap nodeId ∅ = Some r /\ nodeId ∈ r /\
  (forall z, z ∈ r <-> reach (next_up nodeMap) nodeId z).
Proof.
  destruct (dfs_chainFuel (next_up nodeMap) (ids_up nodeMap) (next_up_ids nodeMap) ∅ nodeId)
    as [r Hr].
  exists r. unfold collectPrereqChain. split; [exact Hr |].
  destruct (dfs_closed _ _ _ _ _ Hr) as (_ & Hx & _). split; [exact Hx |].
  intros z. split.
  - intros Hz. destruct (dfs_sound _ _ _ _ _ Hr z Hz) as [He | Hreach]; [set_solver | exact Hreach].
  - apply (dfs_complete _ _ _ _ Hr).
Qed.

Lemma elem_of_chainEdges chain edges e :
  e ∈ chainEdges chain edges <-> e ∈ edges /\ e_source e ∈ chain /\ e_target e ∈ chain.
Proof. unfold chainEdges. rewrite list_elem_of_filter. tauto. Qed.

(** [collectChain] never fails, and its "full" chain is exactly the set of
    ids upstream of the node (through prerequisites and related courses):
    the downstream pass starts on an id the upstream pass has already
    visited and returns at once, so no downstream-only id is ever added. The
    active edges are the edges with both ends upstream of the node, and the
    overclock targets are those of [collectUpstreamSkills]. *)
Theorem collectChain_upstream_only nodeMap edges courses projectNodes nodeId :
  exists r, collectChain nodeMap edges courses projectNodes nodeId = Some r /\
  (forall z, z ∈ cr_chain r <-> reach (next_up nodeMap) nodeId z) /\
  cr_overclock r = collectUpstreamSkills nodeMap nodeId /\
  (forall s t, (s, t) ∈ cr_activeEdges r <->
     exists e, e ∈ edges /\ e_source e = s /\ e_target e = t /\
       reach (next_up nodeMap) nodeId s /\ reach (next_up nodeMap) nodeId t).
Proof.
  destruct (collectPrereqChain_closure nodeMap nodeId) as (r & Hr & Hx & Hiff).
  unfold collectChain. rewrite Hr.
  unfold collectDownstreamChain_module, chainFuel. rewrite dfs_visited_start by exact Hx.
  eexists. split; [reflexivity |]. cbn [cr_chain cr_overclock cr_activeEdges].
  split_and!; [exact Hiff | reflexivity |].
  intros s t. rewrite elem_of_map_iff. split.
  - intros (e & [= -> ->] & He). apply elem_of_chainEdges in He as (He & Hs & Ht).
    exists e. rewrite <- !Hiff. done.
  - intros (e & He & <- & <- & Hs & Ht). exists e. split; [done |].
    apply elem_of_chainEdges. rewrite !Hiff. done.
Qed.

(** The galaxy view's [highlightChain] behaves the same: the chain it
    returns and highlights is exactly the upstream closure of the node,
    even though its downstream pass would also follow the algorithm
    prerequisite edges. *)
Theorem highlightChain_upstream_only nodeMap edges courses projectNodes algoEdges nodeId :
  exists chain active,
  highlightChain nodeMap edges courses projectNodes algoEdges nodeId = Some (chain, active) /\
  (forall z, z ∈ chain <-> reach (next_up nodeMap) nodeId z) /\
  (forall e, e ∈ active <->
     e ∈ edges /\ reach (next_up nodeMap) nodeId (e_source e) /\
     reach (next_up nodeMap) nodeId (e_target e)).
Proof.
  destruct (collectPrereqChain_closure nodeMap nodeId) as (r & Hr & Hx & Hiff).
  unfold highlightChain. rewrite Hr.
  unfold collectDownstreamChain_view, chainFuel. rewrite dfs_visited_start by exact Hx.
  exists r, (chainEdges r edges). split_and!; [reflexivity | exact Hiff |].
  intros e. rewrite elem_of_chainEdges, !Hiff. tauto.
Qed.

(* ================================================================= *)
(** ** Interaction state ([createInteractionManager]) *)

Record InteractionState := {
  hoveredNodeId : option string;
  selectedNodeId : option string;
  highlightedChain : gset string;
  overclockTargets : gset string;
  fogClusterId : option ClusterIdVal;
}.

(** The state the manager starts from. *)
Definition initialInteractionState : InteractionState :=
  {| hoveredNodeId := None; selectedNodeId := None; highlightedChain := ∅;
     overclockTargets := ∅; fogClusterId := None |}.

Section Interaction.
Variable nodeMap : gmap string GalaxyNode.
Variable edges : list ConstellationEdge.
Variable courses : list CourseNode.
Variable projectNodes : list ProjectNode.

(** [if (nodeId)]: [null] and [""] are falsy. *)
Definition truthyId (nodeId : option string) : option string :=
  match nodeId with
  | Some v => if bool_decide (v = "") then None else Some v
  | None => None
  end.

(** [v || null] for a [clusterId] value [v]: only the empty string is falsy. *)
Definition truthyCluster (v : ClusterIdVal) : option ClusterIdVal :=
  match v with
  | cid_str s => if bool_decide (s = "") then None else Some v
  | cid_proto _ => Some v
  end.

(** The common tail of [hover] and [select]: fill or clear the chain, the
    overclock targets and the fogged cluster ([node?.clusterId || null]). *)
Definition focus (nodeId : option string) (st : InteractionState)
    : option InteractionState :=
  match truthyId nodeId with
  | Some id =>
    match collectChain nodeMap edges courses projectNodes id with
    | None => None
    | Some result =>
      Some {| hoveredNodeId := hoveredNodeId st; selectedNodeId := selectedNodeId st;
              highlightedChain := cr_chain result;
              overclockTargets := cr_overclock result;
              fogClusterId :=
                match nodeMap !! id with
                | Some node => truthyCluster (n_clusterId node)
                | None => None
                end |}
    end
  | None =>
    Some {| hoveredNodeId := hoveredNodeId st; selectedNodeId := selectedNodeId st;
            highlightedChain := ∅; overclockTargets := ∅; fogClusterId := None |}
  end.

(** [hover(nodeId)]. *)
Definition hover (nodeId : option string) (st : InteractionState) : option InteractionState :=
  focus nodeId {| hoveredNodeId := nodeId; selectedNodeId := selectedNodeId st;
                  highlightedChain := highlightedChain st;
                  overclockTargets := overclockTargets st; fogClusterId := fogClusterId st |}.

(** [select(nodeId)]. *)
Definition select (nodeId : option string) (st : InteractionState) : option InteractionState :=
  focus nodeId {| hoveredNodeId := hoveredNodeId st; selectedNodeId := nodeId;
                  highlightedChain := highlightedChain st;
                  overclockTargets := overclockTargets st; fogClusterId := fogClusterId st |}.

(** [reset()]. *)
Definition reset (st : InteractionState) : InteractionState := initialInteractionState.

End Interaction.

Lemma collectChain_chain nodeMap edges courses projectNodes nodeId :
  exists r, collectChain nodeMap edges courses projectNodes nodeId = Some r /\
  (forall z, z ∈ cr_chain r <-> reach (next_up nodeMap) nodeId z) /\
  cr_overclock r = collectUpstreamSkills nodeMap nodeId.
Proof.
  destruct (collectPrereqChain_closure nodeMap nodeId) as (r & Hr & Hx & Hiff).
  unfold collectChain. rewrite Hr.
  unfold collectDownstreamChain_module, chainFuel. rewrite dfs_visited_start by exact Hx.
  eexists. split; [reflexivity |]. split; [exact Hiff | reflexivity].
Qed.

(** Selecting a node highlights its upstream chain and fogs its cluster;
    moving the pointer off any node afterwards ([hover(null)]) clears the
    highlight, the overclock targets and the fog although the node stays
    selected. An empty id counts as no node: [hover("")] records [""] as
    hovered but clears the highlight. *)
Theorem select_then_unhover nodeMap edges courses projectNodes st x (Hx : x <> "") :
  (exists st1 st2,
    select nodeMap edges courses projectNodes (Some x) st = Some st1 /\
    hover nodeMap edges courses projectNodes None st1 = Some st2 /\
    selectedNodeId st1 = Some x /\
    (forall z, z ∈ highlightedChain st1 <-> reach (next_up nodeMap) x z) /\
    overclockTargets st1 = collectUpstreamSkills nodeMap x /\
    (forall n, nodeMap !! x = Some n -> n_clusterId n <> cid_str "" ->
       fogClusterId st1 = Some (n_clusterId n)) /\
    selectedNodeId st2 = Some x /\ hoveredNodeId st2 = None /\
    highlightedChain st2 = ∅ /\ overclockTargets st2 = ∅ /\ fogClusterId st2 = None) /\
  (exists st', hover nodeMap edges courses projectNodes (Some "") st = Some st' /\
    hoveredNodeId st' = Some "" /\ highlightedChain st' = ∅ /\ fogClusterId st' = None).
Proof.
  split.
  - destruct (collectChain_chain nodeMap edges courses projectNodes x) as (r & Hr & Hiff & Hov).
    unfold select, focus. cbn [truthyId]. rewrite bool_decide_false by exact Hx.
    rewrite Hr. do 2 eexists. split; [reflexivity |]. split; [reflexivity |].
    cbn [selectedNodeId highlightedChain overclockTargets fogClusterId hoveredNodeId].
    split_and!; try done.
    intros n Hn Hc. rewrite Hn. destruct (n_clusterId n) as [v|k]; cbn [truthyCluster];
      [rewrite bool_decide_false by congruence |]; reflexivity.
  - eexists. split; [reflexivity |]. split_and!; reflexivity.
Qed.

(** Selecting the node [C1] of a small map. *)
Lemma select_then_unhover_witness :
  "C1" <> "" /\
  exists st1, select (mkNodeMap [courseGalaxyNode course_C1]) [] [course_C1] []
                (Some "C1") initialInteractionState = Some st1 /\
              fogClusterId st1 = Some (cid_str "math").
Proof.
  assert (Hx : "C1" <> "") by discriminate.
  split; [exact Hx |].
  destruct (proj1 (select_then_unhover (mkNodeMap [courseGalaxyNode course_C1]) [] [course_C1] []
                     initialInteractionState "C1" Hx))
    as (st1 & st2 & Hs & _ & _ & _ & _ & Hfog & _).
  exists st1. split; [exact Hs |].
  apply (Hfog (courseGalaxyNode course_C1)); vm_compute; [reflexivity | discriminate].
Defined.

(* ================================================================= *)
(** ** Lit and dark nodes, cluster brightness and the fog of war *)

(** [litNodes = galaxyNodes.filter(n => !n.isDark && n.id !== 'CORE')]. *)
Definition litNodes (galaxyNodes : list GalaxyNode) : list GalaxyNode :=
  filter (fun n => n_isDark n <> Some true /\ n_id n <> "CORE") galaxyNodes.

(** [litNodes.filter(n => n.clusterId === cid).length]. *)
Definition litCount (lit : list GalaxyNode) (cid : string) : nat :=
  length (filter (fun n => n_clusterId n = cid_str cid) lit).

(** [clusterBrightness = clusters.map(cluster => Math.min(1.0, 0.08 + count * 0.18))]. *)
Definition clusterBrightness (lit : list GalaxyNode) (cls : list SkillCluster) : list Q :=
  map (fun cl => Qmin 1 ((8#100) + inject_Z (Z.of_nat (litCount lit (cl_id cl))) * (18#100))) cls.

(** What the fog loop does to a cluster: nothing ([continue]), the deep
    void treatment, or the standard fog at opacity [b]. *)
Inductive FogMode := fog_skip | fog_deep | fog_dim (b : Q).

(** One iteration of the fog loop: [if (b >= 0.9) continue;
    isDeepVoid = litCount <= 1]. *)
Definition fogOf (b : Q) (litCount : nat) : FogMode :=
  if Qle_bool (9#10) b then fog_skip
  else if Nat.leb litCount 1 then fog_deep
  else fog_dim b.

(** The loop over [clusters], with [clusterBrightness[i]] for [clusters[i]]. *)
Definition fogPlan (galaxyNodes : list GalaxyNode) (cls : list SkillCluster)
    : list (string * FogMode) :=
  let lit := litNodes galaxyNodes in
  map (fun cb => (cl_id cb.1, fogOf cb.2 (litCount lit (cl_id cb.1))))
    (zip cls (clusterBrightness lit cls)).

Lemma fogOf_count (c : nat) :
  let b := Qmin 1 ((8#100) + inject_Z (Z.of_nat c) * (18#100)) in
  (fogOf b c = fog_skip <-> (5 <= c)%nat) /\
  (fogOf b c = fog_deep <-> (c <= 1)%nat) /\
  (forall b', fogOf b c = fog_dim b' ->
     (2 <= c <= 4)%nat /\ b' == (8#100) + inject_Z (Z.of_nat c) * (18#100)).
Proof.
  intros b. destruct (le_lt_dec 5 c) as [Hc | Hc].
  - assert (H5 : 5 <= inject_Z (Z.of_nat c)).
    { change 5 with (inject_Z 5). rewrite <- Zle_Qle. lia. }
    assert (Hb : 9#10 <= b).
    { apply Q.min_glb; [discriminate | Lqa.lra]. }
    unfold fogOf. apply Qle_bool_iff in Hb. rewrite Hb.
    split_and!; [split; [intros _; exact Hc | reflexivity] | split; [discriminate | lia] |].
    intros b' Hd. discriminate.
  - destruct c as [|[|[|[|[|c]]]]]; [| | | | | lia]; unfold b, fogOf;
      (match goal with |- context [Qle_bool ?x ?y] =>
         let E := fresh in assert (E : Qle_bool x y = false) by (vm_compute; reflexivity);
         rewrite E end); cbn [Nat.leb];
      (split_and!; [split; intros Hf; (lia || discriminate) | split; intros Hf; (lia || discriminate || reflexivity) |]);
      intros b' Hd; (discriminate || (injection Hd as <-; split; [lia | reflexivity])).
Qed.

Lemma zip_map_self {A B} (f : A -> B) (l : list A) :
  zip l (map f l) = map (fun x => (x, f x)) l.
Proof. induction l as [|a l IH]; simpl; [done | by rewrite IH]. Qed.

(** Whatever the nodes and clusters, every cluster brightness lies in
    [0.08, 1], and the fog loop treats a cluster by its number [c] of lit
    nodes only: it is left unfogged exactly when [c >= 5], it becomes a deep
    void exactly when [c <= 1], and otherwise ([2 <= c <= 4]) it is dimmed
    to [0.08 + 0.18 c]. *)
Theorem fogPlan_litCount galaxyNodes cls :
  (forall b, b ∈ clusterBrightness (litNodes galaxyNodes) cls -> 8#100 <= b <= 1) /\
  (forall cid mode, (cid, mode) ∈ fogPlan galaxyNodes cls ->
     let c := litCount (litNodes galaxyNodes) cid in
     (mode = fog_skip <-> (5 <= c)%nat) /\
     (mode = fog_deep <-> (c <= 1)%nat) /\
     (forall b, mode = fog_dim b ->
        (2 <= c <= 4)%nat /\ b == (8#100) + inject_Z (Z.of_nat c) * (18#100))).
Proof.
  split.
  - intros b Hb. unfold clusterBrightness in Hb. apply elem_of_map_iff in Hb.
    destruct Hb as [cl [-> _]].
    set (c := litCount (litNodes galaxyNodes) (cl_id cl)).
    assert (H0 : 0 <= inject_Z (Z.of_nat c)).
    { change 0 with (inject_Z 0). rewrite <- Zle_Qle. lia. }
    split; [apply Q.min_glb; [discriminate | Lqa.lra] | apply Q.le_min_l].
  - intros cid mode Hin. unfold fogPlan, clusterBrightness in Hin.
    rewrite zip_map_self, map_map in Hin. apply elem_of_map_iff in Hin.
    destruct Hin as [cl [[= -> ->] _]]. cbn [fst snd].
    apply fogOf_count.
Qed.

(** The galaxy with the course [C1] alone, over the real [clusters]: the
    math cluster, second in the list, has one lit node. *)
Lemma fogPlan_litCount_witness :
  fogPlan [courseGalaxyNode course_C1] clusters !! 1%nat = Some ("math", fog_deep) /\
  (litCount (litNodes [courseGalaxyNode course_C1]) "math" <= 1)%nat.
Proof.
  assert (Hl : fogPlan [courseGalaxyNode course_C1] clusters !! 1%nat = Some ("math", fog_deep))
    by reflexivity.
  split; [exact Hl |].
  apply (proj2 (fogPlan_litCount [courseGalaxyNode course_C1] clusters) "math" fog_deep
           (list_elem_of_lookup_2 _ _ _ Hl)).
  reflexivity.
Defined.

(* ================================================================= *)
(** ** Nodes outside the listed clusters in the layout *)

Lemma indexed_lookup_2 (l : list GalaxyNode) :
  forall k j n, l !! j = Some n -> ((k + j)%nat, n) ∈ indexed k l.
Proof.
  induction l as [|a l IH]; intros k j n Hj; [rewrite lookup_nil in Hj; discriminate |].
  destruct j as [|j]; simpl in Hj |- *.
  - injection Hj as ->. rewrite Nat.add_0_r. apply elem_of_cons. by left.
  - apply elem_of_cons. right. replace (k + S j)%nat with (S k + j)%nat by lia. auto.
Qed.

Lemma initialPositions_gen (L : list (nat * GalaxyNode)) :
  forall (p : Positions) i,
  (p !! i = Some (0, 0)%R \/ i ∈ map fst L) ->
  fold_left (fun p '(i, _) => <[i := (0, 0)%R]> p) L p !! i = Some (0, 0)%R.
Proof.
  induction L as [|[j a] L IH]; intros p i H; cbn [fold_left map fst] in *.
  - destruct H as [H | H]; [exact H | apply elem_of_nil in H; contradiction].
  - apply IH. destruct H as [H | H].
    + left. destruct (decide (j = i)) as [-> | Hne];
        [apply lookup_insert_eq | etrans; [apply lookup_insert_ne; done | exact H]].
    + apply elem_of_cons in H as [-> | H]; [left; apply lookup_insert_eq | auto].
Qed.

Section LayoutOutside.

Variable simulate : nat -> R * R -> NodeLayer -> list (nat * GalaxyNode) -> Positions -> list (R * R).
Variable j : nat.
Variable nj : GalaxyNode.

Lemma runCluster_untouched nodes centers st cluster st' :
  (j, nj) ∈ indexed 0 nodes -> n_clusterId nj <> cid_str (cl_id cluster) ->
  runCluster simulate nodes centers st cluster = Some st' -> st'.2 !! j = st.2 !! j.
Proof.
  intros Hj Hcl. unfold runCluster.
  destruct (filter _ (indexed 0 nodes)) as [|p ps] eqn:Hf; [by intros [= <-] |].
  destruct (centers !! cl_id cluster) as [center|]; [| discriminate].
  remember (map _ [L_inner; L_mid; L_outer; L_stargate]) as lgs eqn:Hlgs.
  intros [= <-]. apply (runGroups_other simulate j).
  intros l grp i n Hl Hi ->. rewrite Hlgs in Hl.
  apply elem_of_map_iff in Hl as (l0 & [= _ ->] & _).
  apply list_elem_of_filter in Hi as [_ Hi]. rewrite <- Hf in Hi.
  apply list_elem_of_filter in Hi as [[Hc _] Hin].
  apply Hcl. rewrite <- Hc. f_equal. exact (indexed_unique nodes j nj n Hj Hin).
Qed.

Lemma runClusters_untouched nodes centers (cls : list SkillCluster) :
  (j, nj) ∈ indexed 0 nodes -> n_clusterId nj ∉ map (fun c => cid_str (cl_id c)) cls ->
  forall st st',
  fold_left (fun ost cluster => ost ≫= fun st => runCluster simulate nodes centers st cluster)
    cls (Some st) = Some st' -> st'.2 !! j = st.2 !! j.
Proof.
  intros Hj. induction cls as [|c cls IH]; intros Hout st st' Hf; simpl in Hf.
  - by injection Hf as <-.
  - destruct (runCluster simulate nodes centers st c) as [st1|] eqn:Hst1.
    + simpl in Hf. rewrite (IH ltac:(intros H; apply Hout; apply elem_of_cons; by right) st1 st' Hf).
      apply (runCluster_untouched nodes centers st c st1 Hj); [| exact Hst1].
      intros He. apply Hout. apply elem_of_cons. by left.
    + exfalso. clear -Hf. induction cls as [|c' cls IHc]; simpl in Hf; [discriminate | exact (IHc Hf)].
Qed.

End LayoutOutside.

(** Whatever the simulations do, a node whose cluster id is not (the
    string) the id of one of the laid-out clusters is never handed to a simulation: when the
    layout succeeds it stays where the builder put it, at the origin. *)
Theorem layout_unlisted_cluster_at_origin simulate galaxyNodes cls width height centers pos
    (H : layout simulate galaxyNodes cls width height = Some (centers, pos)) :
  forall i n, galaxyNodes !! i = Some n -> n_clusterId n ∉ map (fun c => cid_str (cl_id c)) cls ->
  pos !! i = Some (0, 0)%R.
Proof.
  intros i n Hi Hout. unfold layout in H.
  destruct (nodeIndexMap galaxyNodes !! "CORE") as [ci|]; [| discriminate].
  destruct (fold_left _ cls _) as [[k pos']|] eqn:Hf; [| discriminate].
  injection H as _ <-.
  pose proof (indexed_lookup_2 galaxyNodes 0 i n Hi) as Hin. simpl in Hin.
  etrans; [exact (runClusters_untouched simulate i n _ _ cls Hin Hout _ _ Hf) |]. simpl.
  destruct (decide (ci = i)) as [-> | Hne]; [apply lookup_insert_eq |].
  etrans; [apply lookup_insert_ne; done |]. unfold initialPositions.
  apply initialPositions_gen. right. apply elem_of_map_iff. exists (i, n). done.
Qed.

Definition course_unlisted : CourseNode :=
  {| c_id := "X1"; c_name := "Unlisted"; c_track := "algorithms"; c_grade := "A";
     c_prerequisites := None; c_relatedProjects := None; c_nodeType := None |}.

(** The CORE node and one course of cluster ["cs"], laid out on the
    clusters without ["cs"]: the course stays at the origin. *)
Lemma layout_unlisted_cluster_at_origin_witness :
  exists centers pos,
  layout (fun _ _ _ _ _ => []) [coreGalaxyNode; courseGalaxyNode course_unlisted]
    (filter (fun cl => cl_id cl <> "cs") clusters) 1600%R 800%R = Some (centers, pos) /\
  ([coreGalaxyNode; courseGalaxyNode course_unlisted] !! 1%nat
     = Some (courseGalaxyNode course_unlisted)) /\
  (n_clusterId (courseGalaxyNode course_unlisted)
     ∉ map (fun c => cid_str (cl_id c)) (filter (fun cl => cl_id cl <> "cs") clusters)) /\
  pos !! 1%nat = Some (0, 0)%R.
Proof.
  assert (Hl : exists centers pos,
    layout (fun _ _ _ _ _ => []) [coreGalaxyNode; courseGalaxyNode course_unlisted]
      (filter (fun cl => cl_id cl <> "cs") clusters) 1600%R 800%R = Some (centers, pos))
    by (eexists _, _; reflexivity).
  destruct Hl as (centers & pos & Hl).
  assert (Hout : n_clusterId (courseGalaxyNode course_unlisted)
                   ∉ map (fun c => cid_str (cl_id c))
                       (filter (fun cl => cl_id cl <> "cs") clusters)).
  { apply (bool_decide_unpack _). vm_compute. reflexivity. }
  exists centers, pos. split_and!; [exact Hl | reflexivity | exact Hout |].
  exact (layout_unlisted_cluster_at_origin (fun _ _ _ _ _ => [])
           [coreGalaxyNode; courseGalaxyNode course_unlisted]
           (filter (fun cl => cl_id cl <> "cs") clusters) 1600%R 800%R centers pos Hl
           1%nat (courseGalaxyNode course_unlisted) eq_refl Hout).
Defined.

(* ================================================================= *)
(** ** The detail-panel table [algoNodeExtras] *)

(** [Math.round(x)]: the nearest integer, halves rounded up. *)
Definition mathRound (x : Q) : Z := Qfloor (x + (1#2)).

(** [STAR_CLASS_LABELS]. *)
Definition STAR_CLASS_LABELS (s : StarClass) : string :=
  match s with
  | ghost => "Ghost"
  | brown_dwarf => "Brown Dwarf"
  | main_sequence => "Main Sequence"
  | hypergiant => "Hypergiant"
  end.

(** [AlgoNodeExtra] ([sector] is display data, not kept in [AlgoTopicDef]). *)
Record AlgoNodeExtra := {
  ax_solvedCount : Q;
  ax_estimatedTotal : Q;
  ax_masteryPct : Z;
  ax_starClassLabel : string;
  ax_tagSlugs : list string;
}.

(** The entry [algoNodeExtras.set(topic.id, ...)] of one loop iteration. *)
Definition algoNodeExtra (stats : gmap string Q) (topic : AlgoTopicDef) : AlgoNodeExtra :=
  let solvedCount := computeSolvedCount stats (t_tagSlugs topic) in
  let mastery := Qmin 1 (solvedCount / t_estimatedTotal topic) in
  {| ax_solvedCount := solvedCount;
     ax_estimatedTotal := t_estimatedTotal topic;
     ax_masteryPct := mathRound (mastery * 100);
     ax_starClassLabel := STAR_CLASS_LABELS (masteryToStarClass mastery);
     ax_tagSlugs := t_tagSlugs topic |}.

(** The module-level map after [buildAlgorithmNodes()] ran once. *)
Definition algoNodeExtras (tagStats : list (string * Q)) : gmap string AlgoNodeExtra :=
  let stats := tagStatsMap tagStats in
  fold_left (fun m topic => <[t_id topic := algoNodeExtra stats topic]> m) ALGO_TOPICS ∅.

Lemma ALGO_TOPICS_ids_nodup : NoDup (map t_id ALGO_TOPICS).
Proof. apply (bool_decide_unpack _). vm_compute. reflexivity. Qed.

Lemma ALGO_TOPICS_ids_prefix topic : topic ∈ ALGO_TOPICS -> String.prefix "algo-" (t_id topic) = true.
Proof.
  intros Ht. assert (H : Forall (fun t => String.prefix "algo-" (t_id t) = true) ALGO_TOPICS)
    by (apply (bool_decide_unpack _); vm_compute; reflexivity).
  rewrite Forall_forall in H. exact (H topic Ht).
Qed.

Lemma fold_topics_lookup {V} (val : AlgoTopicDef -> V) (l : list AlgoTopicDef) :
  NoDup (map t_id l) -> forall (m : gmap string V) topic, topic ∈ l ->
  fold_left (fun m topic => <[t_id topic := val topic]> m) l m !! t_id topic = Some (val topic).
Proof.
  induction l as [|a l IH]; intros Hnd m topic Ht; [apply elem_of_nil in Ht; contradiction |].
  simpl in *. apply NoDup_cons in Hnd as [Hnot Hnd].
  apply elem_of_cons in Ht as [-> | Ht].
  - assert (Hkeep : forall (m' : gmap string V) l', t_id a ∉ map t_id l' ->
      m' !! t_id a = Some (val a) ->
      fold_left (fun m topic => <[t_id topic := val topic]> m) l' m' !! t_id a = Some (val a)).
    { intros m' l'. revert m'. induction l' as [|b l' IHl]; intros m' Hn Hm; simpl; [done |].
      apply IHl; [intros H; apply Hn; apply elem_of_cons; by right |].
      rewrite lookup_insert_ne; [done |]. intros E. apply Hn. simpl. rewrite E. apply elem_of_cons. by left. }
    apply Hkeep; [exact Hnot | apply lookup_insert_eq].
  - exact (IH Hnd _ _ Ht).
Qed.

Lemma mathRound_le (x y : Q) : x <= y -> (mathRound x <= mathRound y)%Z.
Proof. intros H. unfold mathRound. apply Qfloor_resp_le. Lqa.lra. Qed.

(** For solved counts that are not negative, the detail panel of every
    algorithm node (its id starts with ["algo-"]) finds its entry in
    [algoNodeExtras]; the entry's percentage is [Math.round(mastery * 100)]
    of the node, between 0 and 100, and its label names the node's star
    class. A ghost topic (mastery below 0.05) shows at most 5%: rounding can
    show exactly 5%, as for 14 of the 300 array-and-hashing problems. *)
Theorem algoNodeExtras_panel (tagStats : list (string * Q))
    (Hnn : forall t, t ∈ tagStats -> 0 <= t.2) :
  (forall n, n ∈ (buildAlgorithmNodes tagStats).1 ->
     String.prefix "algo-" (n_id n) = true /\
     exists x, algoNodeExtras tagStats !! n_id n = Some x /\
       ax_masteryPct x = mathRound (n_mastery n * 100) /\
       (0 <= ax_masteryPct x <= 100)%Z /\
       ax_starClassLabel x = STAR_CLASS_LABELS (n_starClass n) /\
       (n_starClass n = ghost -> (ax_masteryPct x <= 5)%Z)) /\
  (let n := algoTopicNode (tagStatsMap [("array", 14)])
              (mkTopic "algo-array-hash" ["array"; "hash-table"] 300 L_inner []) in
   n_starClass n = ghost /\
   ax_masteryPct (algoNodeExtra (tagStatsMap [("array", 14)])
                    (mkTopic "algo-array-hash" ["array"; "hash-table"] 300 L_inner [])) = 5%Z).
Proof.
  split; [| split; vm_compute; reflexivity].
  intros n Hn. unfold buildAlgorithmNodes in Hn. cbn [fst] in Hn.
  apply elem_of_map_iff in Hn. destruct Hn as [topic [-> Ht]].
  split; [exact (ALGO_TOPICS_ids_prefix topic Ht) |].
  exists (algoNodeExtra (tagStatsMap tagStats) topic).
  pose proof (ALGO_TOPICS_total_pos topic Ht) as Hpos.
  set (stats := tagStatsMap tagStats).
  assert (Hs : 0 <= computeSolvedCount stats (t_tagSlugs topic)).
  { apply computeSolvedCount_fold_nonneg; [| apply Qle_refl].
    intros k v Hk. exact (tagStatsMap_nonneg tagStats k v Hnn Hk). }
  set (s := computeSolvedCount stats (t_tagSlugs topic)) in *.
  set (T := t_estimatedTotal topic) in *.
  assert (Hr : 0 <= s / T).
  { apply Qle_shift_div_l; [exact Hpos |]. rewrite Qmult_0_l. exact Hs. }
  assert (Hm : 0 <= Qmin 1 (s / T) <= 1).
  { split; [apply Q.min_glb; [discriminate | exact Hr] | apply Q.le_min_l]. }
  split_and!.
  - unfold algoNodeExtras. fold stats. apply (fold_topics_lookup (algoNodeExtra stats));
      [exact ALGO_TOPICS_ids_nodup | exact Ht].
  - reflexivity.
  - change (ax_masteryPct (algoNodeExtra stats topic)) with (mathRound (Qmin 1 (s / T) * 100)).
    apply Z.le_trans with (mathRound 0); [reflexivity | apply mathRound_le; Lqa.lra].
  - change (ax_masteryPct (algoNodeExtra stats topic)) with (mathRound (Qmin 1 (s / T) * 100)).
    apply Z.le_trans with (mathRound 100); [apply mathRound_le; Lqa.lra | reflexivity].
  - reflexivity.
  - change (n_starClass (algoTopicNode stats topic)) with (masteryToStarClass (Qmin 1 (s / T))).
    intros Hg.
    assert (Hlt : Qmin 1 (s / T) < 5#100).
    { unfold masteryToStarClass in Hg. destruct (Qltb (Qmin 1 (s / T)) (5#100)) eqn:E.
      - by apply Qltb_spec.
      - destruct (Qltb _ (3#10)); [discriminate |]. destruct (Qltb _ (7#10)); discriminate. }
    change (ax_masteryPct (algoNodeExtra stats topic)) with (mathRound (Qmin 1 (s / T) * 100)).
    apply Z.le_trans with (mathRound 5); [apply mathRound_le; Lqa.lra | reflexivity].
Qed.

(** With 14 solved array problems. *)
Lemma algoNodeExtras_panel_witness :
  (forall t, t ∈ [("array", 14)] -> 0 <= t.2) /\
  exists x, algoNodeExtras [("array", 14)] !! "algo-array-hash" = Some x /\
    (0 <= ax_masteryPct x <= 100)%Z.
Proof.
  assert (Hnn : forall t, t ∈ [("array", 14)] -> 0 <= t.2).
  { intros t Ht. apply list_elem_of_singleton in Ht. subst t. simpl.
    apply Qle_bool_imp_le. reflexivity. }
  split; [exact Hnn |].
  assert (Hin : algoTopicNode (tagStatsMap [("array", 14)])
                  (mkTopic "algo-array-hash" ["array"; "hash-table"] 300 L_inner [])
                ∈ (buildAlgorithmNodes [("array", 14)]).1)
    by (apply elem_of_cons; left; reflexivity).
  destruct (proj2 (proj1 (algoNodeExtras_panel _ Hnn) _ Hin)) as (x & Hx & _ & Hb & _).
  exists x. split; [exact Hx | exact Hb].
Defined.

(* ================================================================= *)
(** ** The data cluster in the fog of war *)

Lemma trackToCluster_not_data k v : trackToCluster !! k = Some v -> v <> "data".
Proof.
  assert (H : map_Forall (fun _ v => v <> "data") trackToCluster)
    by (apply (bool_decide_unpack _); vm_compute; reflexivity).
  intros Hk. exact (H k v Hk).
Qed.

Lemma length_filter_map_le {A} (f : A -> GalaxyNode) (P : GalaxyNode -> Prop)
    `{!forall x, Decision (P x)} (Q : A -> Prop) `{!forall x, Decision (Q x)} (l : list A) :
  (forall x, x ∈ l -> P (f x) -> Q x) ->
  (length (filter P (map f l)) <= length (filter Q l))%nat.
Proof.
  induction l as [|a l IH]; intros Himp; [simpl; lia |].
  cbn [map]. rewrite !filter_cons.
  assert (IH' : (length (filter P (map f l)) <= length (filter Q l))%nat)
    by (apply IH; intros x Hx; apply Himp; apply elem_of_cons; by right).
  destruct (decide (P (f a))) as [Hp | Hp]; destruct (decide (Q a)) as [Hq | Hq];
    simpl; try lia.
  exfalso. apply Hq. apply Himp; [apply elem_of_cons; by left | exact Hp].
Qed.

Lemma length_filter_none {A} (P : A -> Prop) `{!forall x, Decision (P x)} (l : list A) :
  (forall x, x ∈ l -> ~ P x) -> length (filter P l) = 0%nat.
Proof.
  induction l as [|a l IH]; intros Hnone; [done |].
  rewrite filter_cons. rewrite decide_False by (apply Hnone; apply elem_of_cons; by left).
  apply IH. intros x Hx. apply Hnone. apply elem_of_cons. by right.
Qed.

(** No track is mapped to the data cluster, so its only lit nodes are
    the nodes of courses with the override id ["EN553636"]; with at most one
    such course the fog loop always makes the data cluster a deep void,
    whatever the other courses, projects, stats and skills. *)
Theorem data_cluster_deep_void courses projectNodes tagStats skills :
  (litCount (litNodes (galaxyNodes courses projectNodes tagStats skills)) "data"
     <= length (filter (fun c => c_id c = "EN553636") courses))%nat /\
  ((length (filter (fun c => c_id c = "EN553636") courses) <= 1)%nat ->
     fogPlan (galaxyNodes courses projectNodes tagStats skills) clusters !! 5%nat
       = Some ("data", fog_deep)).
Proof.
  assert (Hcount : (litCount (litNodes (galaxyNodes courses projectNodes tagStats skills)) "data"
     <= length (filter (fun c => c_id c = "EN553636") courses))%nat).
  { unfold litCount, litNodes. rewrite list_filter_filter.
    unfold galaxyNodes, buildGalaxyNodes, buildAlgorithmNodes. cbn [default fst].
    rewrite !filter_app, !length_app.
    rewrite (length_filter_none _ [coreGalaxyNode])
      by (intros x Hx; apply list_elem_of_singleton in Hx as ->; simpl; intros [? ?]; done).
    rewrite (length_filter_none _ (map projectGalaxyNode projectNodes)).
    2:{ intros x Hx [Hd _]. apply elem_of_map_iff in Hx as [p [-> _]].
        revert Hd. unfold projectGalaxyNode. cbn zeta. cbn [n_clusterId].
        intros Hd. injection Hd as Hd. revert Hd.
        destruct (or_str_cases (trackToCluster !! or_str (p_track p) "ml") "aiml") as [E | E].
        - rewrite E. discriminate.
        - intros Hd. rewrite Hd in E. exact (trackToCluster_not_data _ _ E eq_refl). }
    rewrite (length_filter_none _ (concat _)).
    2:{ intros x Hx [_ [Hlit _]]. apply elem_of_concat_iff in Hx as [l [Hx Hl]].
        apply elem_of_map_iff in Hl as [cl [-> _]].
        apply elem_of_map_iff in Hx as [ds [-> _]]. apply Hlit. reflexivity. }
    unfold Datatypes.id. rewrite (length_filter_none _ (map _ ALGO_TOPICS)).
    2:{ intros x Hx [Hd _]. apply elem_of_map_iff in Hx as [t [-> _]]. discriminate. }
    rewrite (length_filter_none _ (buildSkillNodes skills)).
    2:{ intros x Hx [Hd _]. unfold buildSkillNodes in Hx.
        apply elem_of_map_iff in Hx as [s [-> _]]. discriminate. }
    assert (Hc : (length (filter (fun n => n_clusterId n = cid_str "data" /\
                   n_isDark n <> Some true /\ n_id n <> "CORE") (map courseGalaxyNode courses))
                  <= length (filter (fun c => c_id c = "EN553636") courses))%nat).
    { apply length_filter_map_le. intros c _ [Hd _]. revert Hd.
      unfold courseGalaxyNode. cbn zeta. cbn [n_clusterId].
      unfold courseClusterId, courseClusterOverride.
      destruct (courseClusterOverrides !! c_id c) as [v|] eqn:Ho.
      - intros _. unfold courseClusterOverrides in Ho. rewrite lookup_singleton in Ho.
        case_decide as Hid; [done | discriminate].
      - case_bool_decide; [discriminate |]. cbn [or_cid].
        intros Hd. injection Hd as Hd. revert Hd.
        destruct (or_str_cases (trackToCluster !! c_track c) "cs") as [E' | E'].
        + rewrite E'. discriminate.
        + intros Hd. rewrite Hd in E'. exfalso. exact (trackToCluster_not_data _ _ E' eq_refl). }
    lia. }
  split; [exact Hcount |].
  intros Hle.
  set (c := litCount (litNodes (galaxyNodes courses projectNodes tagStats skills)) "data") in *.
  assert (Hl : fogPlan (galaxyNodes courses projectNodes tagStats skills) clusters !! 5%nat
    = Some ("data", fogOf (Qmin 1 ((8#100) + inject_Z (Z.of_nat c) * (18#100))) c))
    by reflexivity.
  rewrite Hl. do 2 f_equal.
  apply (proj2 (proj1 (proj2 (fogOf_count c)))). lia.
Qed.

(** The built galaxy with the course [C1] only. *)
Lemma data_cluster_deep_void_witness :
  (length (filter (fun c => c_id c = "EN553636") [course_C1]) <= 1)%nat /\
  fogPlan (galaxyNodes [course_C1] [] [] []) clusters !! 5%nat = Some ("data", fog_deep).
Proof.
  assert (Hle : (length (filter (fun c => c_id c = "EN553636") [course_C1]) <= 1)%nat)
    by (vm_compute; lia).
  split; [exact Hle |].
  exact (proj2 (data_cluster_deep_void [course_C1] [] [] []) Hle).
Defined.
